(** * Asset replication: a shallow embedding of [cognite/replicator/assets.py]

    The hierarchy walker ([create_hierarchy]), the payload builders
    ([build_asset_create], [build_asset_update]), the level selection
    ([find_children]), the two deletion sweeps and the driver ([replicate])
    are transcribed from the Python source.  Python dictionaries are finite
    maps ([gmap]), the set comprehensions are finite sets ([gset]), raised
    exceptions are an explicit result type, and the calls on a
    [CogniteClient] thread the state of the remote projects explicitly. *)

From Stdlib Require Import ZArith Ascii String DecimalString DecimalPos DecimalZ.
From stdpp Require Import base option list gmap strings fin_maps fin_sets.

Local Open Scope string_scope.

(** ** Python values and exceptions *)

Module Py.

(** The exceptions the replicated code can raise. *)
Inductive exn : Type :=
  | KeyError
  | ValueError
  | AttributeError
  | CogniteAPIError.

(** Outcome of running a piece of Python: a value or a raised exception. *)
Inductive result (A : Type) : Type :=
  | Ok (a : A)
  | Raise (e : exn).
Arguments Ok {A} a.
Arguments Raise {A} e.

Definition rbind {A B} (r : result A) (k : A → result B) : result B :=
  match r with
  | Ok a => k a
  | Raise e => Raise e
  end.

(** The white space [int] skips around an ASCII literal: tab, line feed,
    vertical tab, form feed, carriage return and space. *)
Definition is_space (c : ascii) : bool :=
  let n := nat_of_ascii c in
  (((9 <=? n) && (n <=? 13)) || (n =? 32))%nat.

(** Text of ASCII characters. *)
Fixpoint all_ascii (s : string) : bool :=
  match s with
  | String c t => (nat_of_ascii c <? 128)%nat && all_ascii t
  | EmptyString => true
  end.

(** The text on which [int] below stands for Python's [int(s)]: ASCII
    characters only, and at most 640 of them, which is below the number of
    digits from which an interpreter may refuse the conversion.  Text with
    other characters (Python reads decimal digits and white space of other
    scripts as well) or longer text is outside the model. *)
Definition plain (s : string) : Prop :=
  all_ascii s = true ∧ (String.length s ≤ 640)%nat.

Definition digit_of (c : ascii) : option Z :=
  let n := nat_of_ascii c in
  if ((48 <=? n) && (n <=? 57))%nat then Some (Z.of_nat (n - 48)) else None.

Fixpoint skip_ws (s : string) : string :=
  match s with
  | String c t => if is_space c then skip_ws t else s
  | EmptyString => EmptyString
  end.

Fixpoint only_ws (s : string) : bool :=
  match s with
  | String c t => is_space c && only_ws t
  | EmptyString => true
  end.

(** Digits of a decimal literal, single underscores allowed between two
    digits, white space allowed after the last digit. *)
Fixpoint int_digits (acc : Z) (after_digit : bool) (s : string) : option Z :=
  match s with
  | EmptyString => if after_digit then Some acc else None
  | String c t =>
      match digit_of c with
      | Some d => int_digits (10 * acc + d) true t
      | None =>
          if Ascii.eqb c "_"%char
          then (if after_digit then int_digits acc false t else None)
          else if after_digit && only_ws s then Some acc else None
      end
  end.

(** [int(s)] on [plain] text: [None] stands for the [ValueError] Python
    raises on a malformed literal. *)
Definition int (s : string) : option Z :=
  match skip_ws s with
  | String "-" t => Z.opp <$> int_digits 0 false t
  | String "+" t => int_digits 0 false t
  | t => int_digits 0 false t
  end.

(** [str(z)] for an integer. *)
Definition str (z : Z) : string := NilZero.string_of_int (Z.to_int z).

(** [str(x)] for an optional integer: [str(None)] is the text [None]. *)
Definition str_opt (x : option Z) : string :=
  match x with
  | Some z => str z
  | None => "None"
  end.

End Py.

Import Py.

Declare Scope result_scope.
Delimit Scope result_scope with result.
Notation "x ← r ; k" := (rbind r (λ x, k))
  (at level 20, r at level 100, k at level 200, only parsing) : result_scope.
Notation "' p ← r ; k" := (rbind r (λ x, match x with p => k end))
  (at level 20, p pattern, r at level 100, k at level 200, only parsing) : result_scope.

(** ** The data model *)

(** An asset, with the attributes the replicator reads or writes.  Every
    attribute of the client library's class is optional: a payload built by
    [Asset(...)] has no [id], a root has no [parent_id]. *)
Module Asset.
Record t : Type := mk {
  external_id : option string;
  name : option string;
  description : option string;
  metadata : option (gmap string string);
  source : option string;
  parent_id : option Z;
  id : option Z;
}.

(** Attribute assignment, [a.f = v]. *)
Definition set_external_id (v : option string) (a : t) : t :=
  mk v (name a) (description a) (metadata a) (source a) (parent_id a) (id a).
Definition set_name (v : option string) (a : t) : t :=
  mk (external_id a) v (description a) (metadata a) (source a) (parent_id a) (id a).
Definition set_description (v : option string) (a : t) : t :=
  mk (external_id a) (name a) v (metadata a) (source a) (parent_id a) (id a).
Definition set_metadata (v : option (gmap string string)) (a : t) : t :=
  mk (external_id a) (name a) (description a) v (source a) (parent_id a) (id a).
Definition set_source (v : option string) (a : t) : t :=
  mk (external_id a) (name a) (description a) (metadata a) v (parent_id a) (id a).
Definition set_id (v : option Z) (a : t) : t :=
  mk (external_id a) (name a) (description a) (metadata a) (source a) (parent_id a) v.
End Asset.

Global Instance Asset_eq_dec : EqDecision Asset.t.
Proof. solve_decision. Defined.

Abbreviation Asset := Asset.t.

(** A listing of a project: every asset has an internal id. *)
Definition listed (assets : list Asset) : Prop :=
  Forall (λ a, is_Some (Asset.id a)) assets.

Global Instance listed_dec assets : Decision (listed assets).
Proof. unfold listed. apply _. Defined.

(** Truthiness of an optional dictionary: [None] and the empty dictionary
    are falsy. *)
Definition truthy_dict (md : option (gmap string string)) : bool :=
  match md with
  | Some m => negb (bool_decide (m = ∅))
  | None => false
  end.

(** Truthiness of a string: only the empty string is falsy. *)
Definition truthy_str (s : string) : bool :=
  match s with
  | EmptyString => false
  | String _ _ => true
  end.

(** [d[k]]: subscripting raises [KeyError] on a missing key. *)
Definition subscript {K V} `{Countable K} (d : gmap K V) (k : K) : result V :=
  match d !! k with
  | Some v => Ok v
  | None => Raise KeyError
  end.

(** [for x in l: s = body(s, x)], stopping at the first exception. *)
Fixpoint for_each {A S} (body : S → A → result S) (l : list A) (s : S) : result S :=
  match l with
  | [] => Ok s
  | x :: l' => (s' ← body s x; for_each body l' s')%result
  end.

(** ** Calls on the remote projects

    A computation that talks to a project: it reads and changes the state
    [Σ] of the remote side and returns a value or raises.  Changes made
    before an exception persist. *)
Definition M (Σ A : Type) : Type := Σ → result A * Σ.

Definition ret {Σ A} (a : A) : M Σ A := λ σ, (Ok a, σ).

Definition bind {Σ A B} (c : M Σ A) (k : A → M Σ B) : M Σ B :=
  λ σ, match c σ with
       | (Ok a, σ') => k a σ'
       | (Raise e, σ') => (Raise e, σ')
       end.

Definition lift {Σ A} (r : result A) : M Σ A := λ σ, (r, σ).

(** A computation that contains the [while] loop: the loop is unrolled at
    most as often as the fuel allows, and [None] says that the fuel did not
    suffice. *)
Definition F (Σ A : Type) : Type := Σ → option (result A * Σ).

Definition run {Σ A} (c : M Σ A) : F Σ A := λ σ, Some (c σ).

Definition fbind {Σ A B} (c : F Σ A) (k : A → F Σ B) : F Σ B :=
  λ σ, match c σ with
       | Some (Ok a, σ') => k a σ'
       | Some (Raise e, σ') => Some (Raise e, σ')
       | None => None
       end.

Declare Scope prog_scope.
Delimit Scope prog_scope with prog.
Notation "x ← c ; k" := (bind c (λ x, k))
  (at level 20, c at level 100, k at level 200, only parsing) : prog_scope.
Notation "' p ← c ; k" := (bind c (λ x, match x with p => k end))
  (at level 20, p pattern, c at level 100, k at level 200, only parsing) : prog_scope.

Declare Scope fuel_scope.
Delimit Scope fuel_scope with fuel.
Notation "x ← c ; k" := (fbind c (λ x, k))
  (at level 20, c at level 100, k at level 200, only parsing) : fuel_scope.

(** The part of [CogniteClient] the replicator uses: [config.project] and
    the four calls of [client.assets]. *)
Record CogniteClient (Σ : Type) : Type := {
  config_project : string;
  assets_list : M Σ (list Asset);
  assets_create : list Asset → M Σ (list Asset);
  assets_update : list Asset → M Σ (list Asset);
  assets_delete : list (option Z) → M Σ unit;
}.
Arguments config_project {Σ} _.
Arguments assets_list {Σ} _.
Arguments assets_create {Σ} _ _.
Arguments assets_update {Σ} _ _.
Arguments assets_delete {Σ} _ _.

(** ** The [replication] helpers

    The module [cognite/replicator/replication.py] is imported by
    [assets.py]; the definitions below stand for the five helpers of it
    that the asset replicator calls. *)
Module replication.

Definition replication_keys : list string :=
  ["_replicatedSource"; "_replicatedInternalId"; "_replicatedTime"].

(** Modelled from the spec: [replication.new_metadata], the Metadata Tagger.
    A new mapping that copies the source asset's own metadata and sets the
    three replication keys (source project name, stringified source
    internal id, run timestamp), overwriting these keys if present; the
    input asset is not changed. *)
Definition new_metadata (obj : Asset) (project_src : string) (runtime : Z)
    : gmap string string :=
  <["_replicatedTime" := Py.str runtime]>
    (<["_replicatedInternalId" := Py.str_opt (Asset.id obj)]>
       (<["_replicatedSource" := project_src]>
          (default ∅ (Asset.metadata obj)))).

(** The source internal id a destination asset is tagged with, when its
    metadata holds a readable [_replicatedInternalId]. *)
Definition replicated_internal_id (obj : Asset) : option Z :=
  md ← Asset.metadata obj; v ← md !! "_replicatedInternalId"; Py.int v.

(** Modelled from the spec: [replication.make_id_object_map], the lookup
    from a source internal id to the existing destination asset that was
    replicated from it (matched by [_replicatedInternalId]); destination
    assets without the tag have no entry. *)
Definition make_id_object_map (objects : list Asset) : gmap Z Asset :=
  foldl (λ m obj, match replicated_internal_id obj with
                  | Some k => <[k := obj]> m
                  | None => m
                  end) ∅ objects.

(** Modelled from the spec: [replication.existing_mapping], step 5 of the
    Hierarchy Walker.  Folds the given destination assets into the Id
    Mapping, with each asset's source internal id as key and its destination
    internal id as value. *)
Definition existing_mapping (objects : list Asset) (ids : gmap Z Z) : gmap Z Z :=
  foldl (λ m obj, match replicated_internal_id obj, Asset.id obj with
                  | Some k, Some d => <[k := d]> m
                  | _, _ => m
                  end) ids objects.

(** The asset's own metadata: its metadata without the replication keys. *)
Definition own_metadata (obj : Asset) : gmap string string :=
  foldr delete (default ∅ (Asset.metadata obj)) replication_keys.

(** Modelled from the spec: the Record Classifier's notion of differing
    replicable fields: external_id, name, description, source and
    metadata-excluding-replication-keys. *)
Definition differs (src_obj dst_obj : Asset) : bool :=
  negb (bool_decide
    (Asset.external_id src_obj = Asset.external_id dst_obj
     ∧ Asset.name src_obj = Asset.name dst_obj
     ∧ Asset.description src_obj = Asset.description dst_obj
     ∧ Asset.source src_obj = Asset.source dst_obj
     ∧ own_metadata src_obj = own_metadata dst_obj)).

(** Modelled from the spec: [replication.make_objects_batch], the Record
    Classifier.  Splits a batch of source assets into the payloads to
    create (no destination counterpart), the payloads to update (a
    counterpart whose replicable fields differ) and the unchanged
    counterparts, calling the two payload builders it is given. *)
Fixpoint make_objects_batch
    (src_objects : list Asset) (src_id_dst_map : gmap Z Asset)
    (src_dst_ids_assets : gmap Z Z)
    (create : Asset → gmap Z Z → string → Z → Z → result Asset)
    (update : Asset → Asset → gmap Z Z → string → Z → Z → Asset)
    (project_src : string) (replicated_runtime : Z) (depth : Z)
    : result (list Asset * list Asset * list Asset) :=
  match src_objects with
  | [] => Ok ([], [], [])
  | src_obj :: rest =>
      match Asset.id src_obj ≫= (src_id_dst_map !!.) with
      | Some dst_obj =>
          if differs src_obj dst_obj then
            (let upd := update src_obj dst_obj src_dst_ids_assets project_src
                          replicated_runtime depth in
             '(cs, us, ns) ← make_objects_batch rest src_id_dst_map
                 src_dst_ids_assets create update project_src replicated_runtime depth;
             Ok (cs, upd :: us, ns))%result
          else
            ('(cs, us, ns) ← make_objects_batch rest src_id_dst_map
                 src_dst_ids_assets create update project_src replicated_runtime depth;
             Ok (cs, us, dst_obj :: ns))%result
      | None =>
          (new_asset ← create src_obj src_dst_ids_assets project_src
                         replicated_runtime depth;
           '(cs, us, ns) ← make_objects_batch rest src_id_dst_map
               src_dst_ids_assets create update project_src replicated_runtime depth;
           Ok (new_asset :: cs, us, ns))%result
      end
  end.

(** Modelled from the spec: [replication.retry], the Retry wrapper.  Calls
    the store operation on the batch; a transient failure
    ([CogniteAPIError]) is retried, at most [tries] more times; the result
    of the first attempt that does not fail is returned, and the error of
    the last attempt is surfaced otherwise. *)
Fixpoint retry {Σ} (tries : nat) (function : list Asset → M Σ (list Asset))
    (objects : list Asset) : M Σ (list Asset) :=
  λ σ, match tries with
       | O => function objects σ
       | S n =>
           match function objects σ with
           | (Raise CogniteAPIError, σ') => retry n function objects σ'
           | r => r
           end
       end.

End replication.

Import replication.

(** ** [assets.py] *)

(** [build_asset_create]: the payload for a source asset that has no
    counterpart in the destination.  [src_id_dst_map[src_asset.parent_id]]
    is only evaluated when [depth > 0]; the dictionary has integer keys, so
    a missing [parent_id] is a missing key as well. *)
Definition build_asset_create (src_asset : Asset) (src_id_dst_map : gmap Z Z)
    (project_src : string) (runtime : Z) (depth : Z) : result Asset :=
  (parent ←
     (if bool_decide (depth > 0)%Z then
        match Asset.parent_id src_asset with
        | Some p => d ← subscript src_id_dst_map p; Ok (Some d)
        | None => Raise KeyError
        end
      else Ok None);
   Ok {| Asset.external_id := Asset.external_id src_asset;
         Asset.name := Asset.name src_asset;
         Asset.description := Asset.description src_asset;
         Asset.metadata := Some (new_metadata src_asset project_src runtime);
         Asset.source := Asset.source src_asset;
         Asset.parent_id := parent;
         Asset.id := None |})%result.

(** [build_asset_update]: the destination asset with five attributes
    assigned from the source asset.  The Python code assigns the attributes
    of [dst_asset] in place and returns that object; the value returned here
    is the state of that object after the assignments. *)
Definition build_asset_update (src_asset dst_asset : Asset) (src_id_dst_map : gmap Z Z)
    (project_src : string) (runtime : Z) (depth : Z) : Asset :=
  let dst_asset := Asset.set_external_id (Asset.external_id src_asset) dst_asset in
  let dst_asset := Asset.set_name (Asset.name src_asset) dst_asset in
  let dst_asset := Asset.set_description (Asset.description src_asset) dst_asset in
  let dst_asset :=
    Asset.set_metadata (Some (new_metadata src_asset project_src runtime)) dst_asset in
  let dst_asset := Asset.set_source (Asset.source src_asset) dst_asset in
  dst_asset.

(** [{parent.id for parent in parents}]; reading [.id] of [None] raises. *)
Fixpoint id_set (parents : list (option Asset)) : result (gset (option Z)) :=
  match parents with
  | [] => Ok ∅
  | Some parent :: rest => (s ← id_set rest; Ok ({[Asset.id parent]} ∪ s))%result
  | None :: _ => Raise AttributeError
  end.

(** [find_children]: the assets whose [parent_id] is the id of one of the
    parents.  The list [[None]] is the sentinel for "no parent": it is used
    as the collection of parent ids itself. *)
Definition find_children (assets : list Asset) (parents : list (option Asset))
    : result (list Asset) :=
  match parents with
  | [None] => Ok (filter (λ asset, Asset.parent_id asset ∈ [@None Z]) assets)
  | _ => (parent_ids ← id_set parents;
          Ok (filter (λ asset, Asset.parent_id asset ∈ parent_ids) assets))%result
  end.

(** The variables of the [while] loop of [create_hierarchy]. *)
Record WalkState : Type := {
  depth : Z;
  children : list Asset;
  src_dst_ids : gmap Z Z;
}.

Section assets.
Context {Σ : Type}.
  (** The number of further attempts the Retry wrapper makes. *)
Variable tries : nat.

Section hierarchy.
Variables (src_assets dst_assets : list Asset) (project_src : string)
              (runtime : Z) (client : CogniteClient Σ).

    (** One iteration of the [while children:] loop. *)
Definition loop_body (st : WalkState) : M Σ WalkState :=
      ('(create_assets, update_assets, unchanged_assets) ←
          lift (make_objects_batch (children st) (make_id_object_map dst_assets)
                  (src_dst_ids st) build_asset_create build_asset_update
                  project_src runtime (depth st));
       created_assets ← retry tries (assets_create client) create_assets;
       updated_assets ← retry tries (assets_update client) update_assets;
       let ids := existing_mapping
                    (created_assets ++ updated_assets ++ unchanged_assets)
                    (src_dst_ids st) in
       next ← lift (find_children src_assets (Some <$> children st));
       ret {| depth := depth st + 1; children := next; src_dst_ids := ids |})%prog.

Fixpoint while_children (fuel : nat) (st : WalkState) : F Σ (gmap Z Z) :=
      match children st with
      | [] => run (ret (src_dst_ids st))
      | _ :: _ =>
          match fuel with
          | O => λ _, None
          | S fuel' => (st' ← run (loop_body st); while_children fuel' st')%fuel
          end
      end.

    (** [create_hierarchy]: creates or updates the assets level by level,
        roots first, and returns the Id Mapping. *)
Definition create_hierarchy (fuel : nat) : F Σ (gmap Z Z) :=
      (roots ← run (lift (find_children src_assets [None]));
       while_children fuel {| depth := 0; children := roots; src_dst_ids := ∅ |})%fuel.
End hierarchy.

  (** The [for] loop of [remove_not_replicated_in_dst]:
      [not asset.metadata or not asset.metadata["_replicatedSource"]]. *)
Definition not_replicated_step (asset_ids_to_remove : list (option Z)) (asset : Asset)
      : result (list (option Z)) :=
    if truthy_dict (Asset.metadata asset) then
      (v ← subscript (default ∅ (Asset.metadata asset)) "_replicatedSource";
       if truthy_str v then Ok asset_ids_to_remove
       else Ok (asset_ids_to_remove ++ [Asset.id asset])%list)%result
    else Ok (asset_ids_to_remove ++ [Asset.id asset])%list.

Definition remove_not_replicated_in_dst (client_dst : CogniteClient Σ)
      : M Σ (list (option Z)) :=
    (assets ← assets_list client_dst;
     asset_ids_to_remove ← lift (for_each not_replicated_step assets []);
     _ ← assets_delete client_dst asset_ids_to_remove;
     ret asset_ids_to_remove)%prog.

  (** The [for] loop of [remove_replicated_if_not_in_src]. *)
Definition replicated_in_src_step (src_asset_ids : gset (option Z))
      (asset_ids_to_remove : list (option Z)) (asset : Asset)
      : result (list (option Z)) :=
    if truthy_dict (Asset.metadata asset) then
      (v ← subscript (default ∅ (Asset.metadata asset)) "_replicatedInternalId";
       if truthy_str v then
         (v' ← subscript (default ∅ (Asset.metadata asset)) "_replicatedInternalId";
          match Py.int v' with
          | Some n =>
              if bool_decide (Some n ∈ src_asset_ids)
              then Ok (asset_ids_to_remove ++ [Asset.id asset])%list
              else Ok asset_ids_to_remove
          | None => Raise ValueError
          end)
       else Ok asset_ids_to_remove)%result
    else Ok asset_ids_to_remove.

Definition remove_replicated_if_not_in_src (src_assets : list Asset)
      (client_dst : CogniteClient Σ) : M Σ (list (option Z)) :=
    let src_asset_ids : gset (option Z) := list_to_set (Asset.id <$> src_assets) in
    (assets ← assets_list client_dst;
     asset_ids_to_remove ←
       lift (for_each (replicated_in_src_step src_asset_ids) assets []);
     _ ← assets_delete client_dst asset_ids_to_remove;
     ret asset_ids_to_remove)%prog.

  (** [replicate]: the driver.  [time_time] is the reading of the clock,
      [int(time.time())], in seconds. *)
Definition replicate (client_src client_dst : CogniteClient Σ)
      (delete_replicated_if_not_in_src delete_not_replicated_in_dst : bool)
      (time_time : Z) (fuel : nat) : F Σ unit :=
    let project_src := config_project client_src in
    (assets_src ← run (assets_list client_src);
     assets_dst ← run (assets_list client_dst);
     let replicated_runtime := (time_time * 1000)%Z in
     src_dst_ids_assets ←
       create_hierarchy assets_src assets_dst project_src replicated_runtime
         client_dst fuel;
     _ ← run (if delete_replicated_if_not_in_src
              then (deleted_ids ← remove_replicated_if_not_in_src assets_src client_dst;
                    ret tt)%prog
              else ret tt);
     _ ← run (if delete_not_replicated_in_dst
              then (deleted_ids ← remove_not_replicated_in_dst client_dst; ret tt)%prog
              else ret tt);
     run (ret tt))%fuel.
End assets.

(** ** An in-memory pair of projects

    A concrete [CogniteClient] on which the functions above can be run:
    each project keeps its assets, hands out fresh internal ids on creation,
    and records the write calls it received. *)
Module Mem.

Inductive call : Type :=
  | Create (created : list Asset)
  | Update (updated : list Asset)
  | Delete (ids : list (option Z)).

Record project : Type := {
  name : string;
  assets : list Asset;
  next_id : Z;
  journal : list call;
}.

Record world : Type := {
  source : project;
  destination : project;
}.

Fixpoint assign_ids (next : Z) (payloads : list Asset) : list Asset :=
  match payloads with
  | [] => []
  | p :: ps => Asset.set_id (Some next) p :: assign_ids (next + 1) ps
  end.

Definition create (payloads : list Asset) (p : project) : list Asset * project :=
  let created := assign_ids (next_id p) payloads in
  (created,
   {| name := name p;
      assets := assets p ++ created;
      next_id := next_id p + Z.of_nat (length payloads);
      journal := journal p ++ [Create created] |}).

Definition update (payloads : list Asset) (p : project) : list Asset * project :=
  (payloads,
   {| name := name p;
      assets := (λ a, default a
                   (list_find (λ u, Asset.id u = Asset.id a) payloads ≫= Some ∘ snd))
                <$> assets p;
      next_id := next_id p;
      journal := journal p ++ [Update payloads] |}).

Definition delete (ids : list (option Z)) (p : project) : project :=
  {| name := name p;
     assets := filter (λ a, Asset.id a ∉ ids) (assets p);
     next_id := next_id p;
     journal := journal p ++ [Delete ids] |}.

Definition client_src : CogniteClient world := {|
  config_project := "src";
  assets_list := λ w, (Ok (assets (source w)), w);
  assets_create := λ l w,
    let '(r, p) := create l (source w) in
    (Ok r, {| source := p; destination := destination w |});
  assets_update := λ l w,
    if bool_decide (listed l) then
      let '(r, p) := update l (source w) in
      (Ok r, {| source := p; destination := destination w |})
    else (Raise CogniteAPIError, w);
  assets_delete := λ ids w,
    (Ok tt, {| source := delete ids (source w); destination := destination w |});
|}.

Definition client_dst : CogniteClient world := {|
  config_project := "dst";
  assets_list := λ w, (Ok (assets (destination w)), w);
  assets_create := λ l w,
    let '(r, p) := create l (destination w) in
    (Ok r, {| source := source w; destination := p |});
  assets_update := λ l w,
    if bool_decide (listed l) then
      let '(r, p) := update l (destination w) in
      (Ok r, {| source := source w; destination := p |})
    else (Raise CogniteAPIError, w);
  assets_delete := λ ids w,
    (Ok tt, {| source := source w; destination := delete ids (destination w) |});
|}.

(** A source asset with only a name, an id and a parent. *)
Definition node (nm : string) (i : Z) (parent : option Z) : Asset :=
  Asset.mk None (Some nm) None None None parent (Some i).

(** A destination asset tagged as replicated from source id [src_id]. *)
Definition tagged (nm : string) (i : Z) (src_id : string) : Asset :=
  Asset.mk None (Some nm) None
    (Some (<["_replicatedInternalId" := src_id]> {["_replicatedSource" := "src"]}))
    None None (Some i).

(** One root, two children of the root, three grandchildren. *)
Definition tree : list Asset :=
  [node "r" 1 None; node "c1" 2 (Some 1%Z); node "c2" 3 (Some 1%Z);
   node "g1" 4 (Some 2%Z); node "g2" 5 (Some 2%Z); node "g3" 6 (Some 3%Z)].

(** The tree, an asset whose parent id names no asset, and two assets that
    are each other's parent. *)
Definition tree_with_strays : list Asset :=
  tree ++ [node "o" 7 (Some 99%Z); node "x" 8 (Some 9%Z); node "y" 9 (Some 8%Z)].

Definition start (src_assets dst_assets : list Asset) : world :=
  {| source := {| name := "src"; assets := src_assets; next_id := 1; journal := [] |};
     destination := {| name := "dst"; assets := dst_assets; next_id := 1000;
                       journal := [] |} |}.

End Mem.


(** ** Notions used to state the properties *)

(** The value of a digit sequence read from the left, starting from [acc]. *)
Fixpoint uint_val (acc : Z) (d : Decimal.uint) : Z :=
  match d with
  | Decimal.Nil => acc
  | Decimal.D0 d => uint_val (10 * acc) d
  | Decimal.D1 d => uint_val (10 * acc + 1) d
  | Decimal.D2 d => uint_val (10 * acc + 2) d
  | Decimal.D3 d => uint_val (10 * acc + 3) d
  | Decimal.D4 d => uint_val (10 * acc + 4) d
  | Decimal.D5 d => uint_val (10 * acc + 5) d
  | Decimal.D6 d => uint_val (10 * acc + 6) d
  | Decimal.D7 d => uint_val (10 * acc + 7) d
  | Decimal.D8 d => uint_val (10 * acc + 8) d
  | Decimal.D9 d => uint_val (10 * acc + 9) d
  end%Z.

(** The assets the walker selects at depth [k]: the roots at depth 0, and
    at depth [k + 1] the assets whose [parent_id] is the id of an asset
    selected at depth [k]. *)
Fixpoint level (src_assets : list Asset) (k : nat) : list Asset :=
  match k with
  | O => filter (λ a, Asset.parent_id a = None) src_assets
  | S k' => filter (λ a, Asset.parent_id a ∈ (Asset.id <$> level src_assets k'))
              src_assets
  end.

(** Reachability from a root along the parent relation of the source. *)
Inductive reachable (src_assets : list Asset) : Asset → Prop :=
  | reachable_root a :
      a ∈ src_assets → Asset.parent_id a = None → reachable src_assets a
  | reachable_child a b :
      a ∈ src_assets → reachable src_assets b →
      Asset.parent_id a = Asset.id b → reachable src_assets a.

(** [b] is a parent of [a] in the source. *)
Definition parent_in (src_assets : list Asset) (a b : Asset) : Prop :=
  a ∈ src_assets ∧ b ∈ src_assets ∧ Asset.parent_id a = Asset.id b.

(** The parent relation is acyclic: some rank decreases from every asset to
    each of its parents (the depth in a forest is such a rank). *)
Definition acyclic (src_assets : list Asset) (rank : Asset → nat) : Prop :=
  ∀ a b, parent_in src_assets a b → (rank b < rank a)%nat.

(** Internal ids are unique in a listing. *)
Definition unique_ids (assets : list Asset) : Prop :=
  ∀ a b, a ∈ assets → b ∈ assets → Asset.id a = Asset.id b → a = b.

(** A write call answers a payload batch one to one: each returned asset
    carries the metadata of its payload and an internal id. *)
Definition faithful {Σ} (op : list Asset → M Σ (list Asset)) : Prop :=
  ∀ payloads σ r σ',
    op payloads σ = (Ok r, σ') →
    Forall2 (λ p o, Asset.metadata o = Asset.metadata p ∧ is_Some (Asset.id o))
      payloads r.

(** A write call never fails on a batch of payloads that satisfies [P]. *)
Definition succeeds_on {Σ} (P : list Asset → Prop)
    (op : list Asset → M Σ (list Asset)) : Prop :=
  ∀ payloads σ, P payloads → ∃ r σ', op payloads σ = (Ok r, σ').

(** The write calls of a client never fail: creation on any batch, update on
    batches of assets that have an internal id. *)
Definition reliable {Σ} (client : CogniteClient Σ) : Prop :=
  succeeds_on (λ _, True) (assets_create client)
  ∧ succeeds_on listed (assets_update client).

Section walk.
Context {Σ : Type}.
Variables (tries : nat) (src_assets dst_assets : list Asset)
            (project_src : string) (runtime : Z) (client : CogniteClient Σ).

  (** The variables of the loop when it is entered. *)
Definition init : WalkState :=
    {| depth := 0; children := level src_assets 0; src_dst_ids := ∅ |}.

  (** One iteration of the loop that does not raise. *)
Definition walk_step (x y : WalkState * Σ) : Prop :=
    children x.1 ≠ []
    ∧ loop_body tries src_assets dst_assets project_src runtime client x.1 x.2
      = (Ok y.1, y.2).

  (** The states in which the loop condition is evaluated during a run that
      enters the loop in project state [σ0]. *)
Definition visited (σ0 : Σ) (x : WalkState * Σ) : Prop :=
    rtc walk_step (init, σ0) x.

  (** The loop variables at depth [k]. *)
Definition at_level (st : WalkState) (k : nat) : Prop :=
    depth st = Z.of_nat k ∧ children st = level src_assets k.

  (** Every selected asset below the roots has its parent in the Id Mapping. *)
Definition ordered (st : WalkState) : Prop :=
    (depth st > 0)%Z →
    ∀ a, a ∈ children st →
         ∃ p d, Asset.parent_id a = Some p ∧ src_dst_ids st !! p = Some d.

  (** Every entry of the Id Mapping belongs to an asset selected earlier. *)
Definition keyed (st : WalkState) : Prop :=
    ∀ i d, src_dst_ids st !! i = Some d →
           ∃ b k, (Z.of_nat k < depth st)%Z ∧ b ∈ level src_assets k
                  ∧ Asset.id b = Some i.

(** Every asset selected earlier has its id in the Id Mapping. *)
Definition covered (st : WalkState) : Prop :=
  ∀ k b i, (Z.of_nat k < depth st)%Z → b ∈ level src_assets k →
           Asset.id b = Some i → is_Some (src_dst_ids st !! i).
End walk.

(** An asset is replicated when its metadata holds a non-empty
    [_replicatedSource]. *)
Definition replicated (a : Asset) : bool :=
  match Asset.metadata a ≫= (.!! "_replicatedSource") with
  | Some v => truthy_str v
  | None => false
  end.

(** The asset is tagged with the id of a source asset: its metadata holds a
    non-empty [_replicatedInternalId] that reads as one of the given ids. *)
Definition tagged_in (src_asset_ids : gset (option Z)) (a : Asset) : bool :=
  match Asset.metadata a ≫= (.!! "_replicatedInternalId") with
  | Some v =>
      truthy_str v
      && match Py.int v with
         | Some n => bool_decide (Some n ∈ src_asset_ids)
         | None => false
         end
  | None => false
  end.

(** The metadata of the asset is a non-empty mapping without the key. *)
Definition lacks_key (key : string) (a : Asset) : Prop :=
  ∃ m, Asset.metadata a = Some m ∧ m ≠ ∅ ∧ m !! key = None.

(** The ids that occur in the write calls a project received. *)
Definition created_ids (p : Mem.project) : list (option Z) :=
  c ← Mem.journal p;
  match c with Mem.Create l => Asset.id <$> l | _ => [] end.

Definition updated_ids (p : Mem.project) : list (option Z) :=
  c ← Mem.journal p;
  match c with Mem.Update l => Asset.id <$> l | _ => [] end.

Definition deleted_ids (p : Mem.project) : list (option Z) :=
  c ← Mem.journal p;
  match c with Mem.Delete ids => ids | _ => [] end.

(** Two runs of [replicate] in succession on the in-memory projects, with
    the clock read as 5 and then as 6 seconds: the ids of the assets the
    destination was asked to create, update and delete, and the ids it
    holds, after the first and after the second run. *)
Definition two_runs (delete_replicated_if_not_in_src delete_not_replicated_in_dst : bool)
    (src_assets : list Asset)
    : option (list (list (option Z)) * list (list (option Z))) :=
  match replicate 0 Mem.client_src Mem.client_dst delete_replicated_if_not_in_src
          delete_not_replicated_in_dst 5 10 (Mem.start src_assets []) with
  | Some (Ok _, w1) =>
      match replicate 0 Mem.client_src Mem.client_dst
              delete_replicated_if_not_in_src delete_not_replicated_in_dst
              6 10 w1 with
      | Some (Ok _, w2) =>
          let report w :=
            [created_ids (Mem.destination w); updated_ids (Mem.destination w);
             deleted_ids (Mem.destination w);
             Asset.id <$> Mem.assets (Mem.destination w)] in
          Some (report w1, report w2)
      | _ => None
      end
  | _ => None
  end.

(** The [_replicatedInternalId] of the asset can be read without an
    exception: the metadata is absent or empty, or it holds the key with an
    empty text or with plain text that is a decimal literal. *)
Definition readable_internal_id (a : Asset) : Prop :=
  match Asset.metadata a with
  | Some m =>
      m = ∅ ∨ ∃ v, m !! "_replicatedInternalId" = Some v
                   ∧ (v = "" ∨ (Py.plain v ∧ is_Some (Py.int v)))
  | None => True
  end.

(** The client with its [assets.delete] call replaced. *)
Definition with_delete {Σ} (delete : list (option Z) → M Σ unit)
    (client : CogniteClient Σ) : CogniteClient Σ :=
  {| config_project := config_project client;
     assets_list := assets_list client;
     assets_create := assets_create client;
     assets_update := assets_update client;
     assets_delete := delete |}.

(** * Properties *)

(** ** [int(str(z))] *)

Section int_str.
  Local Open Scope Z_scope.

Lemma int_digits_string_of_uint d acc :
    Py.int_digits acc true (NilEmpty.string_of_uint d) = Some (uint_val acc d).
  Proof.
    revert acc. induction d; intros acc; simpl; try done;
      rewrite IHd; do 2 f_equal; lia.
  Qed.

Lemma uint_val_revapp d d' :
    uint_val (Z.of_N (Unsigned.of_lu d')) d
    = Z.of_N (Unsigned.of_lu (Decimal.revapp d d')).
  Proof.
    revert d'. induction d; intros d'; simpl; try done;
      rewrite <- IHd; f_equal; simpl Unsigned.of_lu; lia.
  Qed.

Lemma uint_val_of_uint d : uint_val 0 d = Z.of_uint d.
  Proof.
    unfold Z.of_uint. rewrite Unsigned.of_uint_alt.
    apply (uint_val_revapp d Decimal.Nil).
  Qed.

Lemma int_string_of_uint d :
    d ≠ Decimal.Nil →
    Py.int (NilEmpty.string_of_uint d) = Some (Z.of_uint d).
  Proof.
    intros Hd. rewrite <- uint_val_of_uint.
    destruct d; try done; unfold Py.int; simpl;
      rewrite int_digits_string_of_uint; done.
  Qed.

Lemma int_neg_string_of_uint d :
    d ≠ Decimal.Nil →
    Py.int (String "-" (NilEmpty.string_of_uint d)) = Some (- Z.of_uint d).
  Proof.
    intros Hd. rewrite <- uint_val_of_uint.
    destruct d; try done; unfold Py.int; simpl;
      rewrite int_digits_string_of_uint; done.
  Qed.

  (** Reading back the decimal text of an integer gives the integer. *)
Lemma int_str z : Py.int (Py.str z) = Some z.
  Proof.
    unfold Py.str. rewrite <- (DecimalZ.of_to z) at 2.
    destruct (Z.to_int z) as [d|d] eqn:E; simpl.
    - unfold NilZero.string_of_uint. destruct d; try done;
        apply int_string_of_uint; done.
    - unfold NilZero.string_of_uint.
      destruct d; try (apply int_neg_string_of_uint; done).
      destruct z; simpl in E; try discriminate.
      inversion E as [E']. by apply Unsigned.to_uint_nonnil in E'.
  Qed.
End int_str.

(** ** The replication helpers *)

Section helpers.
Implicit Types (obj o : Asset) (objs : list Asset) (m : gmap Z Z).

Lemma new_metadata_internal_id obj project_src runtime :
    new_metadata obj project_src runtime !! "_replicatedInternalId"
    = Some (Py.str_opt (Asset.id obj)).
  Proof.
    unfold new_metadata. rewrite lookup_insert_ne by done.
    by rewrite lookup_insert_eq.
  Qed.

Lemma new_metadata_source obj project_src runtime :
    new_metadata obj project_src runtime !! "_replicatedSource" = Some project_src.
  Proof.
    unfold new_metadata. do 2 rewrite lookup_insert_ne by done.
    by rewrite lookup_insert_eq.
  Qed.

  (** An asset that carries the tagger's metadata of a source asset is
      recognised as replicated from that asset's id. *)
Lemma replicated_internal_id_tagged o obj project_src runtime i :
    Asset.metadata o = Some (new_metadata obj project_src runtime) →
    Asset.id obj = Some i →
    replicated_internal_id o = Some i.
  Proof.
    intros Hmd Hid. unfold replicated_internal_id. rewrite Hmd. simpl.
    rewrite new_metadata_internal_id, Hid. simpl. apply int_str.
  Qed.

Lemma existing_mapping_nil m : existing_mapping [] m = m.
  Proof. done. Qed.

Lemma existing_mapping_snoc objs o m :
    existing_mapping (objs ++ [o]) m =
    match replicated_internal_id o, Asset.id o with
    | Some k, Some d => <[k := d]> (existing_mapping objs m)
    | _, _ => existing_mapping objs m
    end.
  Proof. unfold existing_mapping. by rewrite foldl_app. Qed.

  (** Entries are only added or overwritten, never removed. *)
Lemma existing_mapping_mono objs m k :
    is_Some (m !! k) → is_Some (existing_mapping objs m !! k).
  Proof.
    induction objs as [|o objs IH] using rev_ind; [done|].
    intros Hk. rewrite existing_mapping_snoc.
    destruct (replicated_internal_id o) as [k'|], (Asset.id o) as [d|]; auto.
    destruct (decide (k' = k)) as [->|].
    - rewrite lookup_insert_eq. eauto.
    - rewrite lookup_insert_ne by done. auto.
  Qed.

  (** Every asset of the batch that is tagged and has an id gets an entry. *)
Lemma existing_mapping_elem objs m o k :
    o ∈ objs → replicated_internal_id o = Some k → is_Some (Asset.id o) →
    is_Some (existing_mapping objs m !! k).
  Proof.
    induction objs as [|o' objs IH] using rev_ind; [by intros ?%elem_of_nil|].
    intros [Ho | ->%list_elem_of_singleton]%elem_of_app Hk [d Hd].
    - rewrite existing_mapping_snoc.
      destruct (replicated_internal_id o') as [k'|], (Asset.id o') as [d'|];
        eauto.
      destruct (decide (k' = k)) as [->|].
      + rewrite lookup_insert_eq. eauto.
      + rewrite lookup_insert_ne by done. eauto.
    - rewrite existing_mapping_snoc, Hk, Hd, lookup_insert_eq. eauto.
  Qed.

  (** Every entry was there before or comes from a tagged asset of the batch. *)
Lemma existing_mapping_lookup objs m k d :
    existing_mapping objs m !! k = Some d →
    m !! k = Some d
    ∨ ∃ o, o ∈ objs ∧ replicated_internal_id o = Some k ∧ Asset.id o = Some d.
  Proof.
    induction objs as [|o objs IH] using rev_ind; [by left|].
    rewrite existing_mapping_snoc.
    destruct (replicated_internal_id o) as [k'|] eqn:Hk';
      [destruct (Asset.id o) as [d'|] eqn:Hd'|].
    - destruct (decide (k' = k)) as [->|].
      + rewrite lookup_insert_eq. intros [= ->]. right. exists o.
        split; [apply elem_of_app; right; apply list_elem_of_singleton|]; done.
      + rewrite lookup_insert_ne by done. intros [?|(o'&?&?)]%IH; [by left|].
        right. exists o'. split; [apply elem_of_app|]; auto.
    - intros [?|(o'&?&?)]%IH; [by left|].
      right. exists o'. split; [apply elem_of_app|]; auto.
    - intros [?|(o'&?&?)]%IH; [by left|].
      right. exists o'. split; [apply elem_of_app|]; auto.
  Qed.

Lemma make_id_object_map_snoc objs o :
    make_id_object_map (objs ++ [o]) =
    match replicated_internal_id o with
    | Some k => <[k := o]> (make_id_object_map objs)
    | None => make_id_object_map objs
    end.
  Proof. unfold make_id_object_map. by rewrite foldl_app. Qed.

  (** The counterpart found under a source id is a destination asset tagged
      with that id. *)
Lemma make_id_object_map_lookup objs k o :
    make_id_object_map objs !! k = Some o →
    o ∈ objs ∧ replicated_internal_id o = Some k.
  Proof.
    induction objs as [|o' objs IH] using rev_ind; [done|].
    rewrite make_id_object_map_snoc.
    destruct (replicated_internal_id o') as [k'|] eqn:Hk'.
    - destruct (decide (k' = k)) as [->|].
      + rewrite lookup_insert_eq. intros [= ->].
        split; [apply elem_of_app; right; apply list_elem_of_singleton|]; done.
      + rewrite lookup_insert_ne by done. intros [??]%IH.
        split; [apply elem_of_app|]; auto.
    - intros [??]%IH. split; [apply elem_of_app|]; auto.
  Qed.
End helpers.

(** ** The Record Classifier *)

Section classifier.
Variables (src_id_dst_map : gmap Z Asset) (ids : gmap Z Z)
            (create : Asset → gmap Z Z → string → Z → Z → result Asset)
            (update : Asset → Asset → gmap Z Z → string → Z → Z → Asset)
            (project_src : string) (runtime depth : Z).

Local Abbreviation batch l :=
    (make_objects_batch l src_id_dst_map ids create update project_src runtime depth).
Local Abbreviation counterpart p := (Asset.id p ≫= (src_id_dst_map !!.)).

  (** Where each source asset of a classified batch went, and where each
      payload came from. *)
Lemma make_objects_batch_inv srcs cs us ns :
    batch srcs = Ok (cs, us, ns) →
    Forall (λ p, match counterpart p with
                 | None => ∃ x, create p ids project_src runtime depth = Ok x ∧ x ∈ cs
                 | Some d => update p d ids project_src runtime depth ∈ us ∨ d ∈ ns
                 end) srcs
    ∧ Forall (λ x, ∃ p, p ∈ srcs ∧ counterpart p = None
                        ∧ create p ids project_src runtime depth = Ok x) cs
    ∧ Forall (λ x, ∃ p d, p ∈ srcs ∧ counterpart p = Some d
                          ∧ x = update p d ids project_src runtime depth) us
    ∧ Forall (λ x, ∃ p, p ∈ srcs ∧ counterpart p = Some x) ns.
  Proof.
    revert cs us ns. induction srcs as [|p srcs IH]; intros cs us ns; simpl.
    { intros [= <- <- <-]. by repeat split. }
    destruct (counterpart p) as [d|] eqn:Hp.
    - destruct (differs p d);
        destruct (batch srcs) as [[[cs' us'] ns']|] eqn:Hrest; simpl; try done;
        intros [= <- <- <-]; destruct (IH _ _ _ eq_refl) as (H1 & H2 & H3 & H4).
      + repeat split.
        * constructor; [rewrite Hp; left; apply elem_of_cons; by left|].
          eapply Forall_impl; [exact H1|]. intros q Hq; cbv beta in Hq |- *.
          destruct (counterpart q); [|done].
          destruct Hq as [?|?]; [left; apply elem_of_cons|]; auto.
        * eapply Forall_impl; [exact H2|]. intros x (q&?&?&?).
          exists q. split; [apply elem_of_cons|]; auto.
        * constructor; [exists p, d; split; [apply elem_of_cons|]; auto|].
          eapply Forall_impl; [exact H3|]. intros x (q&d'&?&?&?).
          exists q, d'. split; [apply elem_of_cons|]; auto.
        * eapply Forall_impl; [exact H4|]. intros x (q&?&?).
          exists q. split; [apply elem_of_cons|]; auto.
      + repeat split.
        * constructor; [rewrite Hp; right; apply elem_of_cons; by left|].
          eapply Forall_impl; [exact H1|]. intros q Hq; cbv beta in Hq |- *.
          destruct (counterpart q); [|done].
          destruct Hq as [?|?]; [|right; apply elem_of_cons]; auto.
        * eapply Forall_impl; [exact H2|]. intros x (q&?&?&?).
          exists q. split; [apply elem_of_cons|]; auto.
        * eapply Forall_impl; [exact H3|]. intros x (q&d'&?&?&?).
          exists q, d'. split; [apply elem_of_cons|]; auto.
        * constructor; [exists p; split; [apply elem_of_cons|]; auto|].
          eapply Forall_impl; [exact H4|]. intros x (q&?&?).
          exists q. split; [apply elem_of_cons|]; auto.
    - destruct (create p ids project_src runtime depth) as [x|] eqn:Hx;
        simpl; [|done].
      destruct (batch srcs) as [[[cs' us'] ns']|] eqn:Hrest; simpl; [|done].
      intros [= <- <- <-]. destruct (IH _ _ _ eq_refl) as (H1 & H2 & H3 & H4).
      repeat split.
      + constructor; [rewrite Hp; exists x; split; [|apply elem_of_cons]; auto|].
        eapply Forall_impl; [exact H1|]. intros q Hq; cbv beta in Hq |- *.
        destruct (counterpart q); [done|].
        destruct Hq as (y&?&?). exists y. split; [|apply elem_of_cons]; auto.
      + constructor; [exists p; split; [apply elem_of_cons|]; auto|].
        eapply Forall_impl; [exact H2|]. intros y (q&?&?&?).
        exists q. split; [apply elem_of_cons|]; auto.
      + eapply Forall_impl; [exact H3|]. intros y (q&d'&?&?&?).
        exists q, d'. split; [apply elem_of_cons|]; auto.
      + eapply Forall_impl; [exact H4|]. intros y (q&?&?).
        exists q. split; [apply elem_of_cons|]; auto.
  Qed.

  (** The classifier raises only if a create payload cannot be built. *)
Lemma make_objects_batch_ok srcs :
    Forall (λ p, counterpart p = None →
                 ∃ x, create p ids project_src runtime depth = Ok x) srcs →
    ∃ cs us ns, batch srcs = Ok (cs, us, ns).
  Proof.
    induction 1 as [|p srcs Hp _ (cs & us & ns & IH)]; simpl; [by eauto|].
    rewrite IH. destruct (counterpart p) as [d|].
    - destruct (differs p d); simpl; eauto.
    - destruct (Hp eq_refl) as [x ->]. simpl. eauto.
  Qed.

  (** It raises if some create payload cannot be built. *)
Lemma make_objects_batch_raise srcs p e :
    p ∈ srcs → counterpart p = None →
    create p ids project_src runtime depth = Raise e →
    ∃ e', batch srcs = Raise e'.
  Proof.
    intros Hin Hp He. induction srcs as [|q srcs IH]; [by apply elem_of_nil in Hin|].
    apply elem_of_cons in Hin as [<-|Hin]; simpl.
    - rewrite Hp, He. simpl. eauto.
    - destruct (IH Hin) as [e' ->].
      destruct (counterpart q) as [d|].
      + destruct (differs q d); simpl; eauto.
      + destruct (create q ids project_src runtime depth); simpl; eauto.
  Qed.
End classifier.

(** ** Level selection *)

Section levels.
Implicit Types (src : list Asset) (a b : Asset) (k : nat).

Lemma id_set_some (cs : list Asset) :
    id_set (Some <$> cs) = Ok (list_to_set (Asset.id <$> cs)).
  Proof. induction cs as [|c cs IH]; csimpl; [done|]. by rewrite IH. Qed.

  (** The sentinel call selects the roots. *)
Lemma find_children_sentinel src : find_children src [None] = Ok (level src 0).
  Proof.
    simpl. f_equal. apply list_filter_iff. intros a.
    rewrite list_elem_of_singleton. done.
  Qed.

  (** A call on a list of assets never raises and selects their children. *)
Lemma find_children_assets src (cs : list Asset) :
    find_children src (Some <$> cs)
    = Ok (filter (λ a, Asset.parent_id a ∈ (Asset.id <$> cs)) src).
  Proof.
    assert (find_children src (Some <$> cs)
            = (parent_ids ← id_set (Some <$> cs);
               Ok (filter (λ asset, Asset.parent_id asset ∈ parent_ids) src))%result)
      as -> by (by destruct cs as [|? [|? ?]]).
    rewrite id_set_some. simpl. f_equal. apply list_filter_iff. intros a.
    by rewrite elem_of_list_to_set.
  Qed.

Lemma find_children_level src k :
    find_children src (Some <$> level src k) = Ok (level src (S k)).
  Proof. apply find_children_assets. Qed.

Lemma level_subseteq src k a : a ∈ level src k → a ∈ src.
  Proof. destruct k; simpl; rewrite list_elem_of_filter; tauto. Qed.

Lemma elem_of_level_S src k a :
    a ∈ level src (S k)
    ↔ a ∈ src ∧ ∃ b, b ∈ level src k ∧ Asset.parent_id a = Asset.id b.
  Proof.
    simpl. rewrite list_elem_of_filter, list_elem_of_fmap. split.
    - intros [(b & ? & ?) ?]. eauto.
    - intros [? (b & ? & ?)]. eauto.
  Qed.

Lemma elem_of_level_0 src a :
    a ∈ level src 0 ↔ a ∈ src ∧ Asset.parent_id a = None.
  Proof. simpl. rewrite list_elem_of_filter. tauto. Qed.

  (** After an empty level every level is empty. *)
Lemma level_nil_S src k : level src k = [] → level src (S k) = [].
  Proof.
    intros Hk. apply elem_of_nil_inv. intros a [_ (b & Hb & _)]%elem_of_level_S.
    rewrite Hk in Hb. by apply elem_of_nil in Hb.
  Qed.

Lemma level_nil_le src k n : level src k = [] → (k ≤ n)%nat → level src n = [].
  Proof. intros Hk. induction 1; auto using level_nil_S. Qed.

  (** Selected assets are reachable from a root. *)
Lemma level_reachable src k a : a ∈ level src k → reachable src a.
  Proof.
    revert a. induction k as [|k IH]; intros a.
    - intros [??]%elem_of_level_0. by apply reachable_root.
    - intros [? (b & Hb & ?)]%elem_of_level_S.
      eapply reachable_child; eauto.
  Qed.

  (** Reachable assets are selected at some depth. *)
Lemma reachable_level src a : reachable src a → ∃ k, a ∈ level src k.
  Proof.
    induction 1 as [a Ha Hp | a b Ha _ [k Hk] Hp].
    - exists 0. by apply elem_of_level_0.
    - exists (S k). apply elem_of_level_S. eauto.
  Qed.

  (** In an acyclic source the rank of an asset bounds its depth. *)
Lemma level_rank src rank k a :
    acyclic src rank → a ∈ level src k → (k ≤ rank a)%nat.
  Proof.
    intros Hacyc. revert a. induction k as [|k IH]; intros a; [lia|].
    intros [Ha (b & Hb & Hp)]%elem_of_level_S.
    pose proof (IH b Hb).
    assert (rank b < rank a)%nat; [|lia].
    apply Hacyc. split_and!; eauto using level_subseteq.
  Qed.

Lemma level_rank_nil src rank D :
    acyclic src rank → (∀ a, a ∈ src → (rank a ≤ D)%nat) → level src (S D) = [].
  Proof.
    intros Hacyc Hbound. apply elem_of_nil_inv. intros a Ha.
    pose proof (level_rank _ _ _ _ Hacyc Ha).
    pose proof (Hbound a (level_subseteq _ _ _ Ha)). lia.
  Qed.
End levels.

Lemma level_disjoint (src : list Asset) (a : Asset) (k k' : nat) :
  listed src → unique_ids src →
  a ∈ level src k → a ∈ level src k' → k = k'.
Proof.
  intros Hlisted Huniq. unfold listed in Hlisted. rewrite Forall_forall in Hlisted.
  assert (∀ b j, Asset.parent_id a = None → b ∈ level src j →
                 Asset.parent_id a = Asset.id b → False) as Hroot.
  { intros b j Hnone Hb Hp.
    destruct (Hlisted b (level_subseteq _ _ _ Hb)) as [i Hi]. congruence. }
  revert a k' Hroot. induction k as [|k IH]; intros a k' Hroot.
  - intros [_ Hnone]%elem_of_level_0. destruct k' as [|j]; [done|].
    intros [_ (b & Hb & Hp)]%elem_of_level_S. destruct (Hroot b j Hnone Hb Hp).
  - intros [_ (b & Hb & Hp)]%elem_of_level_S. destruct k' as [|j].
    + intros [_ Hnone]%elem_of_level_0. destruct (Hroot b k Hnone Hb Hp).
    + intros [_ (b' & Hb' & Hp')]%elem_of_level_S. f_equal.
      assert (b' = b) as ->.
      { apply Huniq; eauto using level_subseteq. congruence. }
      apply (IH b); [|done..].
      intros c j' Hnone Hc Hpc.
      destruct (Hlisted c (level_subseteq _ _ _ Hc)) as [i Hi]. congruence.
Qed.

(** One asset of each level up to a non-empty level: they are distinct. *)
Lemma level_representatives (src : list Asset) (n : nat) :
  listed src → unique_ids src → level src n ≠ [] →
  ∃ reps, length reps = S n ∧ NoDup reps
          ∧ ∀ a, a ∈ reps → ∃ k, (k ≤ n)%nat ∧ a ∈ level src k.
Proof.
  intros Hlisted Huniq. induction n as [|n IH]; intros Hne.
  - destruct (level src 0) as [|a l] eqn:Hl; [done|].
    exists [a]. split_and!; [done|apply NoDup_singleton|].
    intros b ->%list_elem_of_singleton. exists 0. rewrite Hl.
    split; [done|apply elem_of_cons; by left].
  - destruct IH as (reps & Hlen & Hnd & Hreps).
    { intros Hnil. by apply level_nil_S in Hnil. }
    destruct (level src (S n)) as [|a l] eqn:Hl; [done|].
    assert (a ∈ level src (S n)) as Ha by (rewrite Hl; apply elem_of_cons; by left).
    exists (a :: reps). split_and!.
    + simpl. by rewrite Hlen.
    + apply NoDup_cons. split; [|done]. intros (k & Hk & Hak)%Hreps.
      pose proof (level_disjoint _ _ _ _ Hlisted Huniq Ha Hak). lia.
    + intros b [->|Hb]%elem_of_cons; [by exists (S n)|].
      destruct (Hreps b Hb) as (k & ? & ?). exists k. split; [lia|done].
Qed.

(** In a listing with unique ids there are at most as many non-empty levels
    as assets. *)
Lemma level_length_nil (src : list Asset) :
  listed src → unique_ids src → level src (length src) = [].
Proof.
  intros Hlisted Huniq.
  destruct (level src (length src)) as [|a l] eqn:Hl; [done|].
  destruct (level_representatives src (length src) Hlisted Huniq)
    as (reps & Hlen & Hnd & Hreps); [by rewrite Hl|].
  assert (reps ⊆+ src) as Hsub%submseteq_length.
  { apply NoDup_submseteq; [done|]. intros b (k & _ & Hb)%Hreps.
    eauto using level_subseteq. }
  lia.
Qed.

Lemma NoDup_ids_unique (l : list Asset) : NoDup (Asset.id <$> l) → unique_ids l.
Proof.
  induction l as [|c l IH]; intros Hnd a b Ha Hb Hid;
    [by apply elem_of_nil in Ha|].
  rewrite fmap_cons in Hnd. apply NoDup_cons in Hnd as [Hc Hnd].
  apply elem_of_cons in Ha as [->|Ha]; apply elem_of_cons in Hb as [->|Hb].
  - done.
  - destruct Hc. rewrite Hid. apply list_elem_of_fmap. eauto.
  - destruct Hc. rewrite <- Hid. apply list_elem_of_fmap. eauto.
  - by apply IH.
Qed.

(** ** Payload builders *)

Section builders.
Variables (src_asset : Asset) (ids : gmap Z Z) (project_src : string)
            (runtime depth : Z).

Lemma build_asset_create_root :
    (depth ≤ 0)%Z →
    build_asset_create src_asset ids project_src runtime depth
    = Ok (Asset.mk (Asset.external_id src_asset) (Asset.name src_asset)
            (Asset.description src_asset)
            (Some (new_metadata src_asset project_src runtime))
            (Asset.source src_asset) None None).
  Proof.
    intros Hd. unfold build_asset_create.
    rewrite bool_decide_eq_false_2 by lia. done.
  Qed.

Lemma build_asset_create_child p d :
    (depth > 0)%Z → Asset.parent_id src_asset = Some p → ids !! p = Some d →
    build_asset_create src_asset ids project_src runtime depth
    = Ok (Asset.mk (Asset.external_id src_asset) (Asset.name src_asset)
            (Asset.description src_asset)
            (Some (new_metadata src_asset project_src runtime))
            (Asset.source src_asset) (Some d) None).
  Proof.
    intros Hd Hp Hm. unfold build_asset_create, subscript.
    rewrite bool_decide_eq_true_2 by lia. rewrite Hp, Hm. done.
  Qed.

Lemma build_asset_create_orphan :
    (depth > 0)%Z →
    (∀ p, Asset.parent_id src_asset = Some p → ids !! p = None) →
    build_asset_create src_asset ids project_src runtime depth = Raise KeyError.
  Proof.
    intros Hd Hm. unfold build_asset_create, subscript.
    rewrite bool_decide_eq_true_2 by lia.
    destruct (Asset.parent_id src_asset) as [p|]; [|done].
    by rewrite (Hm p eq_refl).
  Qed.

Lemma build_asset_create_metadata x :
    build_asset_create src_asset ids project_src runtime depth = Ok x →
    Asset.metadata x = Some (new_metadata src_asset project_src runtime).
  Proof.
    unfold build_asset_create.
    destruct (if bool_decide (depth > 0)%Z then _ else _); simpl; [|done].
    by intros [= <-].
  Qed.
End builders.

(** ** Retrying preserves the contract of a write call *)

Section retry.
Context {Σ : Type}.
Implicit Types (op : list Asset → M Σ (list Asset)).

Lemma retry_faithful tries op : faithful op → faithful (retry tries op).
  Proof.
    intros Hop. induction tries as [|n IH]; intros payloads σ r σ'; simpl.
    - apply Hop.
    - destruct (op payloads σ) as [[r1|[]] σ1] eqn:E; try done.
      + intros [= <- <-]. eapply Hop, E.
      + apply IH.
  Qed.

Lemma retry_succeeds tries op P :
    succeeds_on P op → succeeds_on P (retry tries op).
  Proof.
    intros Hop payloads σ HP. destruct (Hop payloads σ HP) as (r & σ' & E).
    destruct tries; simpl; rewrite E; eauto.
  Qed.
End retry.

(** A payload of an answered batch has an answer. *)
Lemma faithful_answer (payloads r : list Asset) x :
  Forall2 (λ p o, Asset.metadata o = Asset.metadata p ∧ is_Some (Asset.id o))
    payloads r →
  x ∈ payloads →
  ∃ o, o ∈ r ∧ Asset.metadata o = Asset.metadata x ∧ is_Some (Asset.id o).
Proof.
  intros HF [i Hi]%list_elem_of_lookup.
  destruct (Forall2_lookup_l _ _ _ _ _ HF Hi) as (o & Ho & ? & ?).
  exists o. split; [eapply list_elem_of_lookup_2, Ho|done].
Qed.

(** An answer of an answered batch answers a payload. *)
Lemma faithful_payload (payloads r : list Asset) o :
  Forall2 (λ p o, Asset.metadata o = Asset.metadata p ∧ is_Some (Asset.id o))
    payloads r →
  o ∈ r →
  ∃ x, x ∈ payloads ∧ Asset.metadata o = Asset.metadata x.
Proof.
  intros HF [i Hi]%list_elem_of_lookup.
  destruct (Forall2_lookup_r _ _ _ _ _ HF Hi) as (x & Hx & ? & ?).
  exists x. split; [eapply list_elem_of_lookup_2, Hx|done].
Qed.

(** ** The depth loop *)

Section walk_props.
Context {Σ : Type}.
Variables (tries : nat) (src_assets dst_assets : list Asset)
            (project_src : string) (runtime : Z) (client : CogniteClient Σ).

Local Abbreviation body :=
    (loop_body tries src_assets dst_assets project_src runtime client).
Local Abbreviation step :=
    (walk_step tries src_assets dst_assets project_src runtime client).
Local Abbreviation classify st :=
    (make_objects_batch (children st) (make_id_object_map dst_assets)
       (src_dst_ids st) build_asset_create build_asset_update
       project_src runtime (depth st)).
Local Abbreviation at_level := (at_level src_assets).
Local Abbreviation keyed := (keyed src_assets).

  (** What a successful iteration did. *)
Lemma loop_body_inv st σ st' σ' :
    body st σ = (Ok st', σ') →
    ∃ cs us ns created updated σ1,
      classify st = Ok (cs, us, ns)
      ∧ retry tries (assets_create client) cs σ = (Ok created, σ1)
      ∧ retry tries (assets_update client) us σ1 = (Ok updated, σ')
      ∧ depth st' = (depth st + 1)%Z
      ∧ children st'
        = filter (λ a, Asset.parent_id a ∈ (Asset.id <$> children st)) src_assets
      ∧ src_dst_ids st'
        = existing_mapping (created ++ updated ++ ns) (src_dst_ids st).
  Proof.
    unfold loop_body, bind, lift, ret.
    destruct (classify st) as [[[cs us] ns]|] eqn:Hcl; [|done].
    destruct (retry tries (assets_create client) cs σ) as [[created|] σ1] eqn:Hc;
      [|done].
    destruct (retry tries (assets_update client) us σ1) as [[updated|] σ2] eqn:Hu;
      [|done].
    rewrite find_children_assets. intros [= <- <-].
    by exists cs, us, ns, created, updated, σ1.
  Qed.

  (** The update payloads are destination assets, with their ids. *)
Lemma classify_updates_listed st cs us ns :
    listed dst_assets → classify st = Ok (cs, us, ns) → listed us.
  Proof.
    intros Hdst (_ & _ & H3 & _)%make_objects_batch_inv.
    eapply Forall_impl; [exact H3|]. intros u (p & d & _ & Hd & ->).
    destruct (Asset.id p) as [i|]; [|done]. simpl in Hd.
    apply make_id_object_map_lookup in Hd as [Hd _].
    unfold listed in Hdst. rewrite Forall_forall in Hdst. by apply (Hdst d).
  Qed.

  (** An iteration raises only in the classifier or in a write call. *)
Lemma loop_body_ok st σ :
    listed dst_assets → reliable client →
    (∃ cs us ns, classify st = Ok (cs, us, ns)) →
    ∃ st' σ', body st σ = (Ok st', σ').
  Proof.
    intros Hdst [Hcr Hup] (cs & us & ns & Hc). unfold loop_body, bind, lift, ret.
    rewrite Hc.
    destruct (retry_succeeds tries _ _ Hcr cs σ I) as (created & σ1 & ->).
    destruct (retry_succeeds tries _ _ Hup us σ1) as (updated & σ2 & ->).
    { eapply classify_updates_listed; eauto. }
    rewrite find_children_assets. eauto.
  Qed.

Lemma at_level_step st σ st' σ' k :
    at_level st k → body st σ = (Ok st', σ') → at_level st' (S k).
  Proof.
    intros [Hd Hc] (?&?&?&?&?&?&_&_&_&Hd'&Hc'&_)%loop_body_inv.
    split; [lia|]. by rewrite Hc', Hc.
  Qed.

Lemma visited_at_level σ0 x :
    visited tries src_assets dst_assets project_src runtime client σ0 x →
    ∃ k, at_level x.1 k.
  Proof.
    unfold visited. revert x.
    apply (rtc_ind_r (λ x : WalkState * Σ, ∃ k, at_level x.1 k)).
    - by exists 0.
    - intros [st1 σ1] [st2 σ2] _ [_ Hstep] [k Hk]. exists (S k).
      eapply at_level_step; eauto.
  Qed.

Section contract.
Hypothesis Hsrc : listed src_assets.
Hypothesis Hdst : listed dst_assets.
Hypothesis Hcreate : faithful (assets_create client).
Hypothesis Hupdate : faithful (assets_update client).

    (** The outcome of a processed asset is folded into the Id Mapping. *)
Lemma processed_mapped st σ st' σ' k b i :
      at_level st k → body st σ = (Ok st', σ') →
      b ∈ children st → Asset.id b = Some i →
      is_Some (src_dst_ids st' !! i).
    Proof.
      intros Hk Hbody Hb Hi.
      apply loop_body_inv in Hbody
        as (cs & us & ns & created & updated & σ1 & Hcl & Hc & Hu & _ & _ & ->).
      apply make_objects_batch_inv in Hcl as (H1 & _ & _ & _).
      rewrite Forall_forall in H1. specialize (H1 b Hb). cbv beta in H1.
      rewrite Hi in H1. simpl in H1.
      destruct (make_id_object_map dst_assets !! i) as [d|] eqn:Hd.
      - destruct H1 as [Hin | Hin].
        + apply (retry_faithful tries _ Hupdate) in Hu.
          destruct (faithful_answer _ _ _ Hu Hin) as (o & Ho & Hmd & Hid).
          eapply (existing_mapping_elem _ _ o); [set_solver| |done].
          eapply replicated_internal_id_tagged; [|exact Hi]. by rewrite Hmd.
        + apply make_id_object_map_lookup in Hd as [Hdin Hrid].
          eapply (existing_mapping_elem _ _ d); [set_solver|done|].
          unfold listed in Hdst. rewrite Forall_forall in Hdst. auto.
      - destruct H1 as (x & Hx & Hin).
        apply (retry_faithful tries _ Hcreate) in Hc.
        destruct (faithful_answer _ _ _ Hc Hin) as (o & Ho & Hmd & Hid).
        eapply (existing_mapping_elem _ _ o); [set_solver| |done].
        eapply replicated_internal_id_tagged; [|exact Hi].
        rewrite Hmd. eapply build_asset_create_metadata, Hx.
    Qed.

Lemma ordered_step st σ st' σ' k :
      at_level st k → body st σ = (Ok st', σ') → ordered st'.
    Proof.
      intros Hk Hbody _ a Ha.
      pose proof (at_level_step _ _ _ _ _ Hk Hbody) as [_ Hc'].
      rewrite Hc' in Ha. apply elem_of_level_S in Ha as [_ (b & Hb & Hp)].
      destruct Hk as [Hd Hc].
      assert (is_Some (Asset.id b)) as [i Hi].
      { unfold listed in Hsrc. rewrite Forall_forall in Hsrc.
        eauto using level_subseteq. }
      destruct (processed_mapped st σ st' σ' k b i) as [d Hd']; try done.
      { by rewrite Hc. }
      exists i, d. split; congruence.
    Qed.

Lemma keyed_step st σ st' σ' k :
      at_level st k → keyed st → body st σ = (Ok st', σ') → keyed st'.
    Proof.
      intros [Hd Hch] Hkeyed Hbody i d.
      apply loop_body_inv in Hbody
        as (cs & us & ns & created & updated & σ1 & Hcl & Hc & Hu & Hd' & _ & ->).
      apply make_objects_batch_inv in Hcl as (_ & H2 & H3 & H4).
      rewrite Forall_forall in H2, H3, H4.
      assert (∀ b j, b ∈ children st → Asset.id b = Some j →
                     ∃ b' k', (Z.of_nat k' < depth st')%Z
                              ∧ b' ∈ level src_assets k' ∧ Asset.id b' = Some j)
        as Hnew.
      { intros b j Hb Hj. exists b, k. rewrite <- Hch. split_and!; [lia|done..]. }
      assert (∀ o p, Asset.metadata o = Some (new_metadata p project_src runtime) →
                     replicated_internal_id o = Some i → Asset.id p = Some i)
        as Htag.
      { intros o p Hmd. unfold replicated_internal_id. rewrite Hmd. simpl.
        rewrite new_metadata_internal_id. simpl.
        destruct (Asset.id p) as [j|]; simpl; [|done].
        rewrite int_str. congruence. }
      intros [Hold | (o & Ho & Hrid & _)]%existing_mapping_lookup.
      - destruct (Hkeyed i d Hold) as (b & k' & ? & ? & ?).
        exists b, k'. split_and!; [lia|done..].
      - apply elem_of_app in Ho as [Ho | Ho]; [|apply elem_of_app in Ho as [Ho | Ho]].
        + apply (retry_faithful tries _ Hcreate) in Hc.
          destruct (faithful_payload _ _ _ Hc Ho) as (x & Hx & Hmd).
          destruct (H2 x Hx) as (p & Hp & _ & Hbuild).
          apply build_asset_create_metadata in Hbuild.
          eapply Hnew; [exact Hp|]. eapply (Htag o); [congruence|done].
        + apply (retry_faithful tries _ Hupdate) in Hu.
          destruct (faithful_payload _ _ _ Hu Ho) as (x & Hx & Hmd).
          destruct (H3 x Hx) as (p & d' & Hp & _ & ->).
          eapply Hnew; [exact Hp|]. eapply (Htag o); [exact Hmd|done].
        + destruct (H4 o Ho) as (p & Hp & Hcp).
          destruct (Asset.id p) as [j|] eqn:Hj; [|done]. simpl in Hcp.
          apply make_id_object_map_lookup in Hcp as [_ Hrid'].
          eapply Hnew; [exact Hp|]. congruence.
    Qed.

Lemma visited_invariant σ0 x :
      visited tries src_assets dst_assets project_src runtime client σ0 x →
      (∃ k, at_level x.1 k) ∧ ordered x.1 ∧ keyed x.1.
    Proof.
      unfold visited. revert x.
      apply (rtc_ind_r (λ x : WalkState * Σ,
                          (∃ k, at_level x.1 k) ∧ ordered x.1 ∧ keyed x.1)).
      - split_and!; [by exists 0| |].
        + intros Hd. simpl in Hd. lia.
        + intros i d Hi. simpl in Hi. by rewrite lookup_empty in Hi.
      - intros [st1 σ1] [st2 σ2] _ [_ Hstep] ([k Hk] & _ & Hkeyed).
        simpl in *.
        split_and!; [exists (S k)| |];
          eauto using at_level_step, ordered_step, keyed_step.
    Qed.

    (** An iteration keeps the entries of the Id Mapping. *)
Lemma loop_body_mono st σ st' σ' i :
  body st σ = (Ok st', σ') →
  is_Some (src_dst_ids st !! i) → is_Some (src_dst_ids st' !! i).
Proof.
  intros (?&?&?&?&?&?&_&_&_&_&_&->)%loop_body_inv. apply existing_mapping_mono.
Qed.

Lemma covered_step st σ st' σ' k :
  at_level st k → covered src_assets st → body st σ = (Ok st', σ') →
  covered src_assets st'.
Proof.
  intros Hk Hcov Hbody j b i Hj Hb Hi.
  pose proof (at_level_step _ _ _ _ _ Hk Hbody) as [Hd' _].
  destruct (decide (j = k)) as [->|Hne].
  - eapply processed_mapped; [exact Hk|exact Hbody| |exact Hi].
    destruct Hk as [_ ->]. done.
  - eapply loop_body_mono; [exact Hbody|].
    apply (Hcov j b i); [destruct Hk; lia|done..].
Qed.

Lemma visited_covered σ0 x :
  visited tries src_assets dst_assets project_src runtime client σ0 x →
  covered src_assets x.1.
Proof.
  unfold visited. revert x.
  apply (rtc_ind_r (λ x : WalkState * Σ, covered src_assets x.1)).
  - intros j b i Hj. simpl in Hj. lia.
  - intros y z Hy [_ Hstep] IH.
    destruct (visited_at_level _ _ Hy) as [k Hk].
    eapply covered_step; eauto.
Qed.

(** With the parents mapped, the classifier builds every payload. *)
Lemma ordered_classify st :
      ordered st → ∃ cs us ns, classify st = Ok (cs, us, ns).
    Proof.
      intros Hord. apply make_objects_batch_ok, Forall_forall. intros a Ha _.
      destruct (decide (depth st > 0)%Z) as [Hd|Hd].
      - destruct (Hord Hd a Ha) as (p & d & Hp & Hm).
        erewrite build_asset_create_child; eauto.
      - rewrite build_asset_create_root by lia. eauto.
    Qed.
End contract.
End walk_props.

Section loop_props.
Context {Σ : Type}.
Variables (tries : nat) (src_assets dst_assets : list Asset)
            (project_src : string) (runtime : Z) (client : CogniteClient Σ).

Local Abbreviation body :=
    (loop_body tries src_assets dst_assets project_src runtime client).
Local Abbreviation step :=
    (walk_step tries src_assets dst_assets project_src runtime client).
Local Abbreviation loop :=
    (while_children tries src_assets dst_assets project_src runtime client).
Local Abbreviation at_level := (at_level src_assets).

Lemma create_hierarchy_loop fuel σ :
    create_hierarchy tries src_assets dst_assets project_src runtime client fuel σ
    = loop fuel (init src_assets) σ.
  Proof.
    unfold create_hierarchy, fbind, run, lift.
    by rewrite find_children_sentinel.
  Qed.

Lemma at_level_inj st k k' : at_level st k → at_level st k' → k = k'.
  Proof. intros [??] [??]. lia. Qed.

  (** A run of the loop that returns went through successful iterations
      up to a state without children. *)
Lemma while_children_returns_inv fuel st σ m σ' :
    loop fuel st σ = Some (Ok m, σ') →
    ∃ st', rtc step (st, σ) (st', σ') ∧ children st' = [] ∧ src_dst_ids st' = m.
  Proof.
    revert st σ. induction fuel as [|fuel IH]; intros st σ; simpl.
    - destruct (children st) eqn:Hc; [|done].
      intros [= <- <-]. by exists st.
    - destruct (children st) eqn:Hc.
      { intros [= <- <-]. by exists st. }
      unfold fbind, run at 1.
      destruct (body st σ) as [[st1|] σ1] eqn:Hbody; [|done].
      intros (st' & Hrtc & ? & ?)%IH. exists st'. split; [|done].
      eapply rtc_l; [|exact Hrtc]. split; simpl; [by rewrite Hc|done].
  Qed.

  (** The loop ends within the number of non-empty levels. *)
Lemma while_children_fuel fuel st σ k :
    at_level st k → level src_assets (k + fuel) = [] →
    is_Some (loop fuel st σ).
  Proof.
    revert st σ k. induction fuel as [|fuel IH]; intros st σ k Hk Hnil; simpl.
    - destruct Hk as [_ Hc]. rewrite Nat.add_0_r, <- Hc in Hnil.
      rewrite Hnil. by eexists.
    - destruct (children st) eqn:Hc; [by eexists|].
      unfold fbind, run at 1.
      destruct (body st σ) as [[st1|] σ1] eqn:Hbody; [|by eexists].
      eapply (IH _ _ (S k)); [eapply at_level_step; eauto|].
      by rewrite <- Nat.add_succ_comm in Hnil.
  Qed.

  (** Every level below the depth of a visited state was processed: it is
      the children of a visited state from which an iteration succeeded. *)
Lemma visited_levels σ0 z n k :
    visited tries src_assets dst_assets project_src runtime client σ0 z →
    at_level z.1 n → (k < n)%nat →
    ∃ x y, visited tries src_assets dst_assets project_src runtime client σ0 x
           ∧ at_level x.1 k ∧ step x y.
  Proof.
    unfold visited. intros Hrtc. revert z Hrtc n.
    apply (rtc_ind_r (λ z : WalkState * Σ, ∀ n, at_level z.1 n → (k < n)%nat → _)).
    - intros n [Hd _]. simpl in Hd. lia.
    - intros y z Hy Hstep IH n Hn Hlt.
      destruct (visited_at_level _ _ _ _ _ _ _ _ Hy) as [n' Hn'].
      pose proof (at_level_step _ _ _ _ _ _ _ _ _ _ _ Hn'
                    (proj2 Hstep : body y.1 y.2 = (Ok z.1, z.2))) as Hz.
      assert (n = S n') as -> by eauto using at_level_inj.
      destruct (decide (k = n')) as [->|]; [by exists y, z|].
      apply (IH n'); [done|lia].
  Qed.

Section contract.
Hypothesis Hsrc : listed src_assets.
Hypothesis Hdst : listed dst_assets.
Hypothesis Hcreate : faithful (assets_create client).
Hypothesis Hupdate : faithful (assets_update client).
Hypothesis Hreliable : reliable client.

    (** On a store that answers every write, the loop returns. *)
Lemma while_children_returns fuel st σ k :
      at_level st k → ordered st → level src_assets (k + fuel) = [] →
      ∃ m σ', loop fuel st σ = Some (Ok m, σ').
    Proof.
      revert st σ k. induction fuel as [|fuel IH]; intros st σ k Hk Hord Hnil; simpl.
      - destruct Hk as [_ Hc]. rewrite Nat.add_0_r, <- Hc in Hnil.
        rewrite Hnil. by eexists _, _.
      - destruct (children st) eqn:Hc; [by eexists _, _|].
        unfold fbind, run at 1.
        destruct (loop_body_ok tries src_assets dst_assets project_src runtime
                    client st σ) as (st1 & σ1 & Hbody); [done..| |].
        { by apply ordered_classify. }
        rewrite Hbody. eapply (IH _ _ (S k)).
        + eapply at_level_step; [exact Hk|exact Hbody].
        + eapply (ordered_step tries src_assets dst_assets project_src runtime
                    client Hsrc Hdst Hcreate Hupdate); [exact Hk|exact Hbody].
        + by rewrite <- Nat.add_succ_comm in Hnil.
    Qed.
End contract.
End loop_props.

(** ** The in-memory client honours the contract *)

Section mem_contract.
Lemma assign_ids_faithful next payloads :
    Forall2 (λ p o, Asset.metadata o = Asset.metadata p ∧ is_Some (Asset.id o))
      payloads (Mem.assign_ids next payloads).
  Proof.
    revert next. induction payloads as [|p ps IH]; intros next; simpl;
      constructor; [by eauto|apply IH].
  Qed.

Lemma mem_create_faithful : faithful (assets_create Mem.client_dst).
  Proof.
    intros payloads w r w'. simpl. intros [= <- <-]. apply assign_ids_faithful.
  Qed.

Lemma mem_update_faithful : faithful (assets_update Mem.client_dst).
  Proof.
    intros payloads w r w'. simpl. case_bool_decide as Hl; [|done].
    intros [= <- <-]. unfold listed in Hl.
    induction Hl; constructor; auto.
  Qed.

Lemma mem_reliable : reliable Mem.client_dst.
  Proof.
    split.
    - intros payloads w _. simpl. eauto.
    - intros payloads w Hl. simpl. rewrite bool_decide_eq_true_2 by done. eauto.
  Qed.
End mem_contract.

(** * Main results *)

(** ** Payloads *)

(** C3. Create-payload correctness: the payload built for a source asset
    copies its external_id, name, description and source, carries exactly
    the tagger's metadata, has no id, and refers to the Id Mapping's value
    for the source parent when [depth > 0] and to no parent when
    [depth = 0]; the assets selected at depth 0 are exactly the source
    assets without a parent. *)
Theorem build_asset_create_payload
    (src_asset : Asset) (ids : gmap Z Z) (project_src : string) (runtime : Z) :
  build_asset_create src_asset ids project_src runtime 0
  = Ok {| Asset.external_id := Asset.external_id src_asset;
          Asset.name := Asset.name src_asset;
          Asset.description := Asset.description src_asset;
          Asset.metadata := Some (new_metadata src_asset project_src runtime);
          Asset.source := Asset.source src_asset;
          Asset.parent_id := None;
          Asset.id := None |}
  ∧ (∀ depth p d,
       (depth > 0)%Z → Asset.parent_id src_asset = Some p → ids !! p = Some d →
       build_asset_create src_asset ids project_src runtime depth
       = Ok {| Asset.external_id := Asset.external_id src_asset;
               Asset.name := Asset.name src_asset;
               Asset.description := Asset.description src_asset;
               Asset.metadata := Some (new_metadata src_asset project_src runtime);
               Asset.source := Asset.source src_asset;
               Asset.parent_id := Some d;
               Asset.id := None |})
  ∧ (∀ src_assets,
       find_children src_assets [None]
       = Ok (filter (λ a, Asset.parent_id a = None) src_assets)
       ∧ children (init src_assets)
         = filter (λ a, Asset.parent_id a = None) src_assets
       ∧ depth (init src_assets) = 0%Z).
Proof.
  split_and!.
  - by apply build_asset_create_root.
  - intros depth p d ???. by apply (build_asset_create_child _ _ _ _ _ p).
  - intros src_assets. split_and!; [apply find_children_sentinel|done..].
Qed.

Lemma build_asset_create_payload_witness :
  build_asset_create (Mem.node "pump" 7 (Some 3%Z)) {[3%Z := 1003%Z]} "src" 5000 1
  = Ok {| Asset.external_id := None;
          Asset.name := Some "pump";
          Asset.description := None;
          Asset.metadata :=
            Some (new_metadata (Mem.node "pump" 7 (Some 3%Z)) "src" 5000);
          Asset.source := None;
          Asset.parent_id := Some 1003%Z;
          Asset.id := None |}.
Proof.
  apply (proj1 (proj2 (build_asset_create_payload (Mem.node "pump" 7 (Some 3%Z))
                         {[3%Z := 1003%Z]} "src" 5000)) 1%Z 3%Z 1003%Z);
    [lia|reflexivity|reflexivity].
Defined.

(** C7. Missing-parent error: at [depth > 0] a source asset whose parent id
    is not a key of the Id Mapping (or that has no parent id at all) gets no
    payload, [build_asset_create] raises [KeyError]; at depth 0 the mapping
    is not consulted and a payload is returned whatever the mapping holds. *)
Theorem build_asset_create_missing_parent
    (src_asset : Asset) (ids : gmap Z Z) (project_src : string) (runtime depth : Z) :
  (depth > 0)%Z →
  (∀ p, Asset.parent_id src_asset = Some p → ids !! p = None) →
  build_asset_create src_asset ids project_src runtime depth = Raise KeyError
  ∧ ∀ ids', ∃ payload,
      build_asset_create src_asset ids' project_src runtime 0 = Ok payload
      ∧ Asset.parent_id payload = None.
Proof.
  intros Hd Hm. split; [by apply build_asset_create_orphan|].
  intros ids'. rewrite build_asset_create_root by lia. eauto.
Qed.

Lemma build_asset_create_missing_parent_witness :
  build_asset_create (Mem.node "pump" 7 (Some 3%Z)) {[4%Z := 1004%Z]} "src" 5000 2
  = Raise KeyError.
Proof.
  apply (build_asset_create_missing_parent (Mem.node "pump" 7 (Some 3%Z))
           {[4%Z := 1004%Z]} "src" 5000 2); [lia|].
  intros p [= <-]. reflexivity.
Defined.

(** C8. Update frame: [build_asset_update] gives the destination asset the
    external_id, name, description and source of the source asset and the
    tagger's metadata, and leaves its parent reference and its internal id
    as they were. *)
Theorem build_asset_update_frame
    (src_asset dst_asset : Asset) (ids : gmap Z Z) (project_src : string)
    (runtime depth : Z) :
  let updated :=
    build_asset_update src_asset dst_asset ids project_src runtime depth in
  Asset.external_id updated = Asset.external_id src_asset
  ∧ Asset.name updated = Asset.name src_asset
  ∧ Asset.description updated = Asset.description src_asset
  ∧ Asset.source updated = Asset.source src_asset
  ∧ Asset.metadata updated = Some (new_metadata src_asset project_src runtime)
  ∧ Asset.parent_id updated = Asset.parent_id dst_asset
  ∧ Asset.id updated = Asset.id dst_asset.
Proof. by repeat split. Qed.

(** ** Deletion sweeps *)

Section sweeps.
Implicit Types (a : Asset) (assets : list Asset) (acc : list (option Z)).

Lemma for_each_app {A S} (body : S → A → result S) l1 l2 s :
    for_each body (l1 ++ l2)%list s
    = (s' ← for_each body l1 s; for_each body l2 s')%result.
  Proof.
    revert s. induction l1 as [|x l1 IH]; intros s; simpl; [done|].
    destruct (body s x); simpl; auto.
  Qed.

Lemma replicated_in_src_step_ok src_asset_ids acc a acc' :
    replicated_in_src_step src_asset_ids acc a = Ok acc' →
    acc' = (acc ++ if tagged_in src_asset_ids a then [Asset.id a] else [])%list.
  Proof.
    unfold replicated_in_src_step, tagged_in, truthy_dict, subscript.
    destruct (Asset.metadata a) as [m|]; simpl;
      [|intros [= <-]; by rewrite app_nil_r].
    case_bool_decide as Hempty; simpl.
    { subst m. rewrite lookup_empty. intros [= <-]. by rewrite app_nil_r. }
    destruct (m !! "_replicatedInternalId") as [v|]; simpl; [|done].
    destruct (truthy_str v); simpl; [|intros [= <-]; by rewrite app_nil_r].
    destruct (Py.int v) as [n|]; simpl; [|done].
    case_bool_decide; intros [= <-]; [done|by rewrite app_nil_r].
  Qed.

Lemma not_replicated_step_ok acc a acc' :
    not_replicated_step acc a = Ok acc' →
    acc' = (acc ++ if replicated a then [] else [Asset.id a])%list.
  Proof.
    unfold not_replicated_step, replicated, truthy_dict, subscript.
    destruct (Asset.metadata a) as [m|]; simpl; [|by intros [= <-]].
    case_bool_decide as Hempty; simpl.
    { subst m. rewrite lookup_empty. by intros [= <-]. }
    destruct (m !! "_replicatedSource") as [v|]; simpl; [|done].
    destruct (truthy_str v); simpl; intros [= <-]; [by rewrite app_nil_r|done].
  Qed.

  (** What Sweep A selects when its loop completes: the destination assets
      tagged with the id of an asset that is in the source. *)
Lemma sweep_a_selects src_asset_ids assets acc l :
    for_each (replicated_in_src_step src_asset_ids) assets acc = Ok l →
    l = (acc ++ (Asset.id <$> filter (λ a, tagged_in src_asset_ids a = true) assets))%list.
  Proof.
    revert acc. induction assets as [|a assets IH]; intros acc; simpl.
    { intros [= <-]. by rewrite app_nil_r. }
    destruct (replicated_in_src_step src_asset_ids acc a) as [acc'|] eqn:Ha;
      simpl; [|done].
    apply replicated_in_src_step_ok in Ha as ->. intros ->%IH.
    rewrite filter_cons. destruct (tagged_in src_asset_ids a).
    - rewrite decide_True by done. by rewrite fmap_cons, <- app_assoc.
    - rewrite decide_False by done. by rewrite app_nil_r.
  Qed.

  (** What Sweep B selects when its loop completes: the destination assets
      that are not replicated. *)
Lemma sweep_b_selects assets acc l :
    for_each not_replicated_step assets acc = Ok l →
    l = (acc ++ (Asset.id <$> filter (λ a, replicated a = false) assets))%list.
  Proof.
    revert acc. induction assets as [|a assets IH]; intros acc; simpl.
    { intros [= <-]. by rewrite app_nil_r. }
    destruct (not_replicated_step acc a) as [acc'|] eqn:Ha; simpl; [|done].
    apply not_replicated_step_ok in Ha as ->. intros ->%IH.
    rewrite filter_cons. destruct (replicated a).
    - rewrite decide_False by done. by rewrite app_nil_r.
    - rewrite decide_True by done. by rewrite fmap_cons, <- app_assoc.
  Qed.

  (** The loop of Sweep B completes when no asset has a non-empty metadata
      mapping without the [_replicatedSource] key. *)
Lemma sweep_b_completes assets acc :
    Forall (λ a, ¬ lacks_key "_replicatedSource" a) assets →
    ∃ l, for_each not_replicated_step assets acc = Ok l.
  Proof.
    intros HF. revert acc. induction HF as [|a assets Ha _ IH]; intros acc; simpl.
    { eauto. }
    unfold not_replicated_step at 1, truthy_dict, subscript.
    destruct (Asset.metadata a) as [m|] eqn:Hm; simpl; [|apply IH].
    case_bool_decide as Hempty; simpl; [apply IH|].
    destruct (m !! "_replicatedSource") as [v|] eqn:Hv; simpl.
    - destruct (truthy_str v); apply IH.
    - destruct Ha. by exists m.
  Qed.

  (** Either sweep raises as soon as the destination holds an asset whose
      metadata is a non-empty mapping without the key the sweep reads. *)
Lemma sweep_b_raises assets acc a :
    a ∈ assets → lacks_key "_replicatedSource" a →
    ∃ e, for_each not_replicated_step assets acc = Raise e.
  Proof.
    intros Hin (m & Hm & Hne & Hkey). revert acc.
    induction assets as [|b assets IH]; intros acc; [by apply elem_of_nil in Hin|].
    simpl. destruct (not_replicated_step acc b) as [acc'|e] eqn:Hb; simpl;
      [|by eauto].
    apply elem_of_cons in Hin as [<-|Hin]; [|by apply IH].
    unfold not_replicated_step, truthy_dict, subscript in Hb.
    rewrite Hm, bool_decide_eq_false_2 in Hb by done. simpl in Hb.
    by rewrite Hkey in Hb.
  Qed.

Lemma sweep_a_raises src_asset_ids assets acc a :
    a ∈ assets → lacks_key "_replicatedInternalId" a →
    ∃ e, for_each (replicated_in_src_step src_asset_ids) assets acc = Raise e.
  Proof.
    intros Hin (m & Hm & Hne & Hkey). revert acc.
    induction assets as [|b assets IH]; intros acc; [by apply elem_of_nil in Hin|].
    simpl.
    destruct (replicated_in_src_step src_asset_ids acc b) as [acc'|e] eqn:Hb;
      simpl; [|by eauto].
    apply elem_of_cons in Hin as [<-|Hin]; [|by apply IH].
    unfold replicated_in_src_step, truthy_dict, subscript in Hb.
    rewrite Hm, bool_decide_eq_false_2 in Hb by done. simpl in Hb.
    by rewrite Hkey in Hb.
  Qed.
End sweeps.

(** C1. Sweep A on the destination {X tagged with source id 1, Y tagged
    with source id 2} and the source {id 1}: the code deletes X, whose
    source asset still exists, and keeps Y, whose source asset is gone.
    The membership test of [remove_replicated_if_not_in_src] lacks the
    negation its name and docstring announce. *)
Theorem sweep_a_deletes_assets_still_in_source :
  let src_assets := [Mem.node "a" 1 None] in
  let w := Mem.start src_assets [Mem.tagged "X" 10 "1"; Mem.tagged "Y" 20 "2"] in
  let r := remove_replicated_if_not_in_src src_assets Mem.client_dst w in
  r.1 = Ok [Some 10%Z]
  ∧ Asset.name <$> Mem.assets (Mem.destination r.2) = [Some "Y"]
  ∧ deleted_ids (Mem.destination r.2) = [Some 10%Z].
Proof. vm_compute. done. Qed.

(** C5. Sweep B on the destination {X tagged as replicated, W not tagged,
    with metadata of its own}: reading [_replicatedSource] from W's metadata
    raises [KeyError]; no delete call is made and W stays. *)
Theorem sweep_b_raises_on_untagged_metadata :
  let W := Asset.mk None (Some "W") None (Some {["unit" := "m"]}) None None
             (Some 30%Z) in
  let w := Mem.start [] [Mem.tagged "X" 10 "1"; W] in
  let r := remove_not_replicated_in_dst Mem.client_dst w in
  replicated W = false
  ∧ r.1 = Raise KeyError
  ∧ Asset.name <$> Mem.assets (Mem.destination r.2) = [Some "X"; Some "W"]
  ∧ Mem.journal (Mem.destination r.2) = [].
Proof. vm_compute. done. Qed.

(** C6. A destination asset whose metadata is a non-empty mapping without
    the replication keys: both sweeps raise [KeyError] on it instead of
    treating it as not replicated. *)
Theorem sweeps_raise_on_metadata_without_keys :
  let W := Asset.mk None (Some "W") None (Some {["unit" := "m"]}) None None
             (Some 30%Z) in
  let w := Mem.start [Mem.node "a" 1 None] [W] in
  lacks_key "_replicatedSource" W ∧ lacks_key "_replicatedInternalId" W
  ∧ (remove_replicated_if_not_in_src [Mem.node "a" 1 None] Mem.client_dst w).1
    = Raise KeyError
  ∧ (remove_not_replicated_in_dst Mem.client_dst w).1 = Raise KeyError.
Proof.
  split_and!; [| |by vm_compute..];
    (eexists; split_and!; [reflexivity| |by vm_compute]);
    intros Hempty;
    apply (f_equal (λ m : gmap string string, m !! "unit")) in Hempty;
    by vm_compute in Hempty.
Qed.

(** The two examples of the sweeps on assets without metadata of their own:
    Sweep B deletes the asset without metadata and keeps the tagged one. *)
Example sweep_b_example :
  let Z0 := Mem.node "Z" 30 None in
  let w := Mem.start [] [Mem.tagged "X" 10 "1"; Z0] in
  let r := remove_not_replicated_in_dst Mem.client_dst w in
  r.1 = Ok [Some 30%Z]
  ∧ Asset.name <$> Mem.assets (Mem.destination r.2) = [Some "X"].
Proof. vm_compute. done. Qed.

(** ** The hierarchy walker *)

(** C2. Ordering invariant of [create_hierarchy]: whenever the loop
    condition is evaluated at a depth greater than 0, every selected asset
    has a parent id that is a key of the Id Mapping, so that the classifier
    builds every payload of the level.  The write calls are assumed to
    answer each payload of a batch (the parents' outcomes succeeded), and
    the listings to carry internal ids. *)
Theorem parent_mapped_before_child {Σ} (tries : nat)
    (src_assets dst_assets : list Asset) (project_src : string) (runtime : Z)
    (client : CogniteClient Σ) (σ0 : Σ) (x : WalkState * Σ) :
  listed src_assets → listed dst_assets →
  faithful (assets_create client) → faithful (assets_update client) →
  visited tries src_assets dst_assets project_src runtime client σ0 x →
  ((depth x.1 > 0)%Z →
   ∀ a, a ∈ children x.1 →
        ∃ p d, Asset.parent_id a = Some p ∧ src_dst_ids x.1 !! p = Some d)
  ∧ ∃ create_assets update_assets unchanged_assets,
      make_objects_batch (children x.1) (make_id_object_map dst_assets)
        (src_dst_ids x.1) build_asset_create build_asset_update
        project_src runtime (depth x.1)
      = Ok (create_assets, update_assets, unchanged_assets).
Proof.
  intros Hsrc Hdst Hc Hu Hx.
  destruct (visited_invariant _ _ _ _ _ _ Hsrc Hdst Hc Hu _ _ Hx)
    as (_ & Hord & _).
  split; [exact Hord|]. by apply ordered_classify.
Qed.

Lemma parent_mapped_before_child_witness :
  ∃ x, visited 0 Mem.tree [] "src" 5000 Mem.client_dst (Mem.start Mem.tree []) x
       ∧ depth x.1 = 1%Z
       ∧ ∀ a, a ∈ children x.1 →
              ∃ p d, Asset.parent_id a = Some p ∧ src_dst_ids x.1 !! p = Some d.
Proof.
  assert (∃ x, walk_step 0 Mem.tree [] "src" 5000 Mem.client_dst
                 (init Mem.tree, Mem.start Mem.tree []) x ∧ depth x.1 = 1%Z)
    as (x & Hstep & Hdepth).
  { eexists (_, _). split; [split; [done|vm_compute; reflexivity]|done]. }
  exists x.
  assert (visited 0 Mem.tree [] "src" 5000 Mem.client_dst (Mem.start Mem.tree []) x)
    as Hx by (by apply rtc_once).
  split_and!; [done..|].
  apply (parent_mapped_before_child 0 Mem.tree [] "src" 5000 Mem.client_dst
           (Mem.start Mem.tree []) x);
    [by repeat constructor|constructor|apply mem_create_faithful
    |apply mem_update_faithful|exact Hx|lia].
Defined.

(** C9, as stated, fails by one iteration: a source with a single root has
    maximum depth 0, yet the children set is not empty before the first
    iteration, and a run that is allowed 0 iterations does not end. *)
Lemma depth_loop_bound_counterexample :
  let root := Mem.node "r" 1 None in
  acyclic [root] (λ _, 0)
  ∧ (∀ a, a ∈ [root] → ((λ _, 0) a ≤ 0)%nat)
  ∧ level [root] 0 ≠ []
  ∧ create_hierarchy 0 [root] [] "src" 5000 Mem.client_dst 0 (Mem.start [root] [])
    = None
  ∧ is_Some (create_hierarchy 0 [root] [] "src" 5000 Mem.client_dst 1
               (Mem.start [root] [])).
Proof.
  split_and!; [|lia|done|done|by eexists].
  intros a b (Ha & Hb & Hp).
  apply list_elem_of_singleton in Ha as ->.
  apply list_elem_of_singleton in Hb as ->. done.
Qed.

(** C9, amended. Termination of the depth loop: if the parent relation of
    the source is acyclic, with a rank (such as the depth) that decreases
    towards the parents and is at most [D], then the children set is empty
    after at most [D + 1] iterations, one per level; the loop ends within
    that many iterations whatever the store answers, and on a store that
    answers every write [create_hierarchy] returns the Id Mapping of the
    last state of the loop. *)
Theorem depth_loop_terminates {Σ} (tries : nat)
    (src_assets dst_assets : list Asset) (project_src : string) (runtime : Z)
    (client : CogniteClient Σ) (rank : Asset → nat) (D fuel : nat) (σ : Σ) :
  acyclic src_assets rank →
  (∀ a, a ∈ src_assets → (rank a ≤ D)%nat) →
  (D < fuel)%nat →
  level src_assets (S D) = []
  ∧ is_Some (create_hierarchy tries src_assets dst_assets project_src runtime
               client fuel σ)
  ∧ (listed src_assets → listed dst_assets →
     faithful (assets_create client) → faithful (assets_update client) →
     reliable client →
     ∃ m σ' st,
       create_hierarchy tries src_assets dst_assets project_src runtime
         client fuel σ = Some (Ok m, σ')
       ∧ visited tries src_assets dst_assets project_src runtime client σ (st, σ')
       ∧ children st = [] ∧ src_dst_ids st = m).
Proof.
  intros Hacyc Hbound Hfuel.
  pose proof (level_rank_nil _ _ _ Hacyc Hbound) as Hnil.
  assert (level src_assets (0 + fuel) = []) as Hnil'.
  { eapply level_nil_le; [exact Hnil|]. simpl. lia. }
  split_and!; [done| |].
  - rewrite create_hierarchy_loop.
    eapply (while_children_fuel _ _ _ _ _ _ _ _ _ 0); [done|exact Hnil'].
  - intros Hsrc Hdst Hc Hu Hrel.
    destruct (while_children_returns tries src_assets dst_assets project_src
                runtime client Hsrc Hdst Hc Hu Hrel fuel (init src_assets) σ 0)
      as (m & σ' & Hrun); [done| |exact Hnil'|].
    { intros Hd. simpl in Hd. lia. }
    destruct (while_children_returns_inv _ _ _ _ _ _ _ _ _ _ _ Hrun)
      as (st & Hrtc & Hnone & Hm).
    exists m, σ', st. by rewrite create_hierarchy_loop.
Qed.

Lemma depth_loop_terminates_witness :
  let src_assets := [Mem.node "r" 1 None; Mem.node "c" 2 (Some 1%Z)] in
  let rank := λ a : Asset, if Asset.parent_id a is Some _ then 1 else 0 in
  level src_assets 2 = []
  ∧ is_Some (create_hierarchy 0 src_assets [] "src" 5000 Mem.client_dst 2
               (Mem.start src_assets [])).
Proof.
  intros src_assets rank.
  refine (let H := depth_loop_terminates 0 src_assets [] "src" 5000
                     Mem.client_dst rank 1 2 (Mem.start src_assets []) _ _ _
          in conj (proj1 H) (proj1 (proj2 H))).
  - intros a b (Ha & Hb & Hp). subst src_assets rank.
    apply elem_of_cons in Ha as [->|Ha%list_elem_of_singleton];
      apply elem_of_cons in Hb as [->|Hb%list_elem_of_singleton];
      subst; simpl in *; (done || lia).
  - intros a Ha. subst rank. simpl. destruct (Asset.parent_id a); lia.
  - lia.
Defined.

(** ** Assets that no root reaches *)

Lemma tree_with_strays_listed : listed Mem.tree_with_strays.
Proof. unfold listed. apply (bool_decide_unpack _). by vm_compute. Qed.

Lemma tree_with_strays_unique : unique_ids Mem.tree_with_strays.
Proof. apply NoDup_ids_unique, (bool_decide_unpack _). by vm_compute. Qed.

Section unreachable.
Variable src : list Asset.

Lemma reachable_in a : reachable src a → a ∈ src.
  Proof. by destruct 1. Qed.

  (** An asset whose parent id names no source asset is not reachable. *)
Lemma dangling_unreachable a p :
    Asset.parent_id a = Some p →
    (∀ b, b ∈ src → Asset.id b ≠ Some p) →
    ¬ reachable src a.
  Proof.
    intros Hp Hnone Hr. destruct Hr as [a _ Hroot | a b _ Hb Hpb].
    - congruence.
    - apply (Hnone b); [by apply reachable_in|congruence].
  Qed.

  (** With unique ids, an asset on a parent cycle is not reachable. *)
Lemma cyclic_unreachable a :
    listed src → unique_ids src →
    tc (parent_in src) a a → ¬ reachable src a.
  Proof.
    intros Hlisted Huniq Hcyc Hr. revert Hcyc.
    induction Hr as [a Ha Hroot | a b Ha Hb IH Hpb]; intros Hcyc.
    - assert (∃ c, parent_in src a c) as (c & _ & Hc & Hpc).
      { inversion Hcyc; eauto. }
      unfold listed in Hlisted. rewrite Forall_forall in Hlisted.
      destruct (Hlisted c Hc) as [i Hi]. congruence.
    - apply IH.
      assert (∃ c, parent_in src a c ∧ rtc (parent_in src) c a)
        as (c & Hac & Hca).
      { inversion Hcyc; subst; eauto using rtc_refl, tc_rtc. }
      assert (c = b) as ->.
      { destruct Hac as (_ & Hc & Hpc).
        apply Huniq; [done|by apply reachable_in|congruence]. }
      eapply tc_rtc_l; [exact Hca|]. by apply tc_once.
  Qed.
End unreachable.

(** C10. Assets that no root reaches are skipped: at every evaluation of
    the loop condition the selected assets are source assets reachable from
    a root along the parent relation, the payloads of the level are built
    from these assets only, and every key of the Id Mapping is the id of a
    reachable source asset; in a run that returns, every reachable source
    asset was selected in an iteration that was carried out.  An asset whose
    parent id names no source asset is not reachable, nor is, in a listing
    with unique ids, an asset on a parent cycle.  On a source listing with
    unique ids and a store that answers every write the run does return,
    within as many iterations as there are source assets, and the processed
    set is exactly the reachable subset: the keys of the Id Mapping it
    returns are exactly the ids of the reachable source assets, each of
    which was selected in an iteration that was carried out. *)
Theorem unreachable_assets_skipped {Σ} (tries : nat)
    (src_assets dst_assets : list Asset) (project_src : string) (runtime : Z)
    (client : CogniteClient Σ) (σ0 : Σ) :
  faithful (assets_create client) → faithful (assets_update client) →
  (∀ x, visited tries src_assets dst_assets project_src runtime client σ0 x →
        (∀ a, a ∈ children x.1 → a ∈ src_assets ∧ reachable src_assets a)
        ∧ (∀ cs us ns,
             make_objects_batch (children x.1) (make_id_object_map dst_assets)
               (src_dst_ids x.1) build_asset_create build_asset_update
               project_src runtime (depth x.1) = Ok (cs, us, ns) →
             ∀ payload, payload ∈ (cs ++ us)%list →
               ∃ a, a ∈ children x.1
                    ∧ Asset.metadata payload
                      = Some (new_metadata a project_src runtime))
        ∧ (∀ i d, src_dst_ids x.1 !! i = Some d →
                  ∃ b, b ∈ src_assets ∧ reachable src_assets b
                       ∧ Asset.id b = Some i))
  ∧ (∀ fuel m σ',
       create_hierarchy tries src_assets dst_assets project_src runtime client
         fuel σ0 = Some (Ok m, σ') →
       ∀ a, reachable src_assets a →
            ∃ x y, visited tries src_assets dst_assets project_src runtime
                     client σ0 x
                   ∧ a ∈ children x.1
                   ∧ walk_step tries src_assets dst_assets project_src runtime
                       client x y)
  ∧ (∀ a p, Asset.parent_id a = Some p →
            (∀ b, b ∈ src_assets → Asset.id b ≠ Some p) →
            ¬ reachable src_assets a)
  ∧ (listed src_assets → unique_ids src_assets →
     ∀ a, tc (parent_in src_assets) a a → ¬ reachable src_assets a)
  ∧ (listed src_assets → unique_ids src_assets → listed dst_assets →
     reliable client →
     ∀ fuel, (length src_assets ≤ fuel)%nat →
       ∃ m σ',
         create_hierarchy tries src_assets dst_assets project_src runtime
           client fuel σ0 = Some (Ok m, σ')
         ∧ (∀ i, is_Some (m !! i)
                 ↔ ∃ b, b ∈ src_assets ∧ reachable src_assets b
                        ∧ Asset.id b = Some i)
         ∧ (∀ a, reachable src_assets a →
                 ∃ x y, visited tries src_assets dst_assets project_src
                          runtime client σ0 x
                        ∧ a ∈ children x.1
                        ∧ walk_step tries src_assets dst_assets project_src
                            runtime client x y
                        ∧ ∀ i, Asset.id a = Some i →
                               is_Some (src_dst_ids y.1 !! i)
                               ∧ is_Some (m !! i))).
Proof.
  intros Hc Hu.
  assert (∀ x, visited tries src_assets dst_assets project_src runtime client
                 σ0 x → keyed src_assets x.1) as Hkeyed.
  { unfold visited.
    apply (rtc_ind_r (λ x : WalkState * Σ, keyed src_assets x.1)).
    - intros j e He. simpl in He. by rewrite lookup_empty in He.
    - intros y z Hy [_ Hstep] IH.
      destruct (visited_at_level _ _ _ _ _ _ _ _ Hy) as [k Hk].
      eapply keyed_step; eauto. }
  assert (∀ st σ' a,
            visited tries src_assets dst_assets project_src runtime client σ0
              (st, σ') →
            children st = [] → reachable src_assets a →
            ∃ x y k, visited tries src_assets dst_assets project_src runtime
                       client σ0 x
                     ∧ at_level src_assets x.1 k ∧ a ∈ level src_assets k
                     ∧ (Z.of_nat k < depth st)%Z
                     ∧ walk_step tries src_assets dst_assets project_src
                         runtime client x y) as Hprocessed.
  { intros st σ' a Hrtc Hnone Hr.
    destruct (visited_at_level _ _ _ _ _ _ _ _ Hrtc) as [n Hn].
    destruct (reachable_level _ _ Hr) as [k Hk].
    assert (k < n)%nat as Hlt.
    { destruct (decide (k < n)%nat) as [|Hge]; [done|].
      destruct Hn as [_ Hn]. simpl in Hn. rewrite Hnone in Hn.
      rewrite (level_nil_le src_assets n k) in Hk by (done || lia).
      by apply elem_of_nil in Hk. }
    destruct (visited_levels _ _ _ _ _ _ _ _ _ _ Hrtc Hn Hlt)
      as (x & y & Hx & Hxk & Hstep).
    exists x, y, k. split_and!; [done..| |done].
    destruct Hn as [Hn _]. simpl in Hn. lia. }
  split_and!.
  - intros x Hx.
    destruct (visited_at_level _ _ _ _ _ _ _ _ Hx) as [k [_ Hk]].
    split_and!.
    + intros a Ha. rewrite Hk in Ha.
      eauto using level_subseteq, level_reachable.
    + intros cs us ns (_ & H2 & H3 & _)%make_objects_batch_inv payload.
      rewrite Forall_forall in H2, H3.
      intros [Hin | Hin]%elem_of_app.
      * destruct (H2 _ Hin) as (a & Ha & _ & Hbuild). exists a.
        eauto using build_asset_create_metadata.
      * destruct (H3 _ Hin) as (a & d & Ha & _ & ->). by exists a.
    + intros i d Hi.
      destruct (Hkeyed x Hx i d Hi) as (b & k' & _ & Hb & Hid).
      exists b. eauto using level_subseteq, level_reachable.
  - intros fuel m σ' Hrun a Hr. rewrite create_hierarchy_loop in Hrun.
    apply while_children_returns_inv in Hrun as (st & Hrtc & Hnone & _).
    destruct (Hprocessed st σ' a Hrtc Hnone Hr)
      as (x & y & k & Hx & [_ Hxk] & Hak & _ & Hstep).
    exists x, y. by rewrite Hxk.
  - apply dangling_unreachable.
  - intros Hl Hq a. by apply cyclic_unreachable.
  - intros Hsrc Huniq Hdst Hrel fuel Hfuel.
    assert (level src_assets (0 + fuel) = []) as Hnil.
    { eapply level_nil_le; [by apply level_length_nil|]. simpl. lia. }
    destruct (while_children_returns tries src_assets dst_assets project_src
                runtime client Hsrc Hdst Hc Hu Hrel fuel (init src_assets) σ0 0)
      as (m & σ' & Hrun); [done| |exact Hnil|].
    { intros Hd. simpl in Hd. lia. }
    exists m, σ'. split; [by rewrite create_hierarchy_loop|].
    apply while_children_returns_inv in Hrun as (st & Hrtc & Hnone & <-).
    pose proof (visited_covered tries src_assets dst_assets project_src runtime
                  client Hsrc Hdst Hc Hu σ0 _ Hrtc) as Hcov.
    split.
    + intros i. split.
      * intros [d Hd].
        destruct (Hkeyed _ Hrtc i d Hd) as (b & k' & _ & Hb & Hid).
        exists b. eauto using level_subseteq, level_reachable.
      * intros (b & _ & Hr & Hid).
        destruct (Hprocessed st σ' b Hrtc Hnone Hr)
          as (_ & _ & k & _ & _ & Hbk & Hlt & _).
        by apply (Hcov k b i).
    + intros a Hr.
      destruct (Hprocessed st σ' a Hrtc Hnone Hr)
        as (x & [sty σy] & k & Hx & Hxk & Hak & Hlt & Hstep).
      exists x, (sty, σy). split_and!; [done|by destruct Hxk as [_ ->]|done|].
      intros i Hi. split; [|by apply (Hcov k a i)].
      destruct Hstep as [_ Hstep]. simpl in Hstep.
      eapply (processed_mapped tries src_assets dst_assets project_src runtime
                client Hsrc Hdst Hc Hu); [exact Hxk|exact Hstep| |exact Hi].
      by destruct Hxk as [_ ->].
Qed.

Lemma unreachable_assets_skipped_witness :
  let src := Mem.tree_with_strays in
  ∃ m σ',
    create_hierarchy 0 src [] "src" 5000 Mem.client_dst 9 (Mem.start src [])
    = Some (Ok m, σ')
    ∧ is_Some (m !! 1%Z) ∧ is_Some (m !! 6%Z)
    ∧ m !! 7%Z = None ∧ m !! 8%Z = None ∧ m !! 9%Z = None
    ∧ ¬ reachable src (Mem.node "o" 7 (Some 99%Z))
    ∧ ¬ reachable src (Mem.node "x" 8 (Some 9%Z))
    ∧ ¬ reachable src (Mem.node "y" 9 (Some 8%Z)).
Proof.
  intros src.
  pose proof (unreachable_assets_skipped 0 src [] "src" 5000 Mem.client_dst
                (Mem.start src []) mem_create_faithful mem_update_faithful)
    as (_ & _ & Hdangling & Hcycle & Hrun).
  destruct (Hrun tree_with_strays_listed tree_with_strays_unique
              (Forall_nil_2 _) mem_reliable 9%nat)
    as (m & σ' & Hm & Hkeys & _); [simpl; lia|].
  assert (∀ a, a ∈ src ↔ bool_decide (a ∈ src) = true) as Hin.
  { intros a. by rewrite bool_decide_eq_true. }
  assert (∀ a b, bool_decide (a ∈ src) = true → bool_decide (b ∈ src) = true →
                 Asset.parent_id a = Asset.id b → parent_in src a b) as Hpar.
  { intros a b Ha%Hin Hb%Hin Hp. by split_and!. }
  assert (¬ reachable src (Mem.node "o" 7 (Some 99%Z))) as Ho.
  { apply (Hdangling _ 99%Z); [reflexivity|].
    apply Forall_forall, (bool_decide_unpack _). by vm_compute. }
  assert (¬ reachable src (Mem.node "x" 8 (Some 9%Z))) as Hx.
  { apply (Hcycle tree_with_strays_listed tree_with_strays_unique).
    apply (tc_l _ _ (Mem.node "y" 9 (Some 8%Z))); [|apply tc_once];
      apply Hpar; by vm_compute. }
  assert (¬ reachable src (Mem.node "y" 9 (Some 8%Z))) as Hy.
  { apply (Hcycle tree_with_strays_listed tree_with_strays_unique).
    apply (tc_l _ _ (Mem.node "x" 8 (Some 9%Z))); [|apply tc_once];
      apply Hpar; by vm_compute. }
  assert (∀ a i, bool_decide (a ∈ src) = true → Asset.id a = Some i →
                 ¬ reachable src a → m !! i = None) as Hskip.
  { intros a i Ha%Hin Hi Hnot. apply eq_None_not_Some.
    intros (b & Hb & Hr & Hbi)%Hkeys.
    assert (b = a) as ->.
    { apply tree_with_strays_unique; [exact Hb|exact Ha|congruence]. }
    done. }
  assert (reachable src (Mem.node "r" 1 None)) as Hr.
  { apply reachable_root; [apply Hin; by vm_compute|reflexivity]. }
  assert (reachable src (Mem.node "c2" 3 (Some 1%Z))) as Hc2.
  { eapply reachable_child; [apply Hin; by vm_compute|exact Hr|reflexivity]. }
  assert (reachable src (Mem.node "g3" 6 (Some 3%Z))) as Hg3.
  { eapply reachable_child; [apply Hin; by vm_compute|exact Hc2|reflexivity]. }
  exists m, σ'. split_and!; [exact Hm| | | | | |exact Ho|exact Hx|exact Hy].
  - apply Hkeys. eexists. split_and!; [|exact Hr|reflexivity].
    apply Hin. by vm_compute.
  - apply Hkeys. eexists. split_and!; [|exact Hg3|reflexivity].
    apply Hin. by vm_compute.
  - by apply (Hskip (Mem.node "o" 7 (Some 99%Z))).
  - by apply (Hskip (Mem.node "x" 8 (Some 9%Z))).
  - by apply (Hskip (Mem.node "y" 9 (Some 8%Z))).
Defined.

(** ** The driver *)

(** C4. Two runs in succession with [delete_replicated_if_not_in_src] set,
    on a source with one root and an empty destination: the first run
    creates the root's copy (id 1000) and Sweep A deletes it; the second run
    finds no counterpart, creates a new copy under a new id (1001) and
    deletes it again.  The destination ids are not stable across the runs;
    this is the defect of Sweep A seen from the driver. *)
Theorem replicate_twice_with_sweep_a_recreates :
  two_runs true false [Mem.node "r" 1 None]
  = Some ([[Some 1000%Z]; []; [Some 1000%Z]; []],
          [[Some 1000%Z; Some 1001%Z]; []; [Some 1000%Z; Some 1001%Z]; []]).
Proof. by vm_compute. Qed.

(** Without the sweeps the second run writes nothing: the six assets of the
    tree are created once and keep their ids. *)
Example replicate_twice_without_sweeps :
  let ids := Some <$> [1000; 1001; 1002; 1003; 1004; 1005]%Z in
  two_runs false false Mem.tree = Some ([ids; []; []; ids], [ids; []; []; ids]).
Proof. by vm_compute. Qed.

(** * Further properties of [assets.py] *)

(** ** [find_children] *)

(** X1. A call of [find_children] on a list of assets never raises; it
    selects exactly the assets whose [parent_id] equals the [id] of one of
    the parents (a parent without id matches the assets without parent),
    and nothing when there are no parents. *)
Theorem find_children_of_assets (assets parents : list Asset) :
  ∃ selected,
    find_children assets (Some <$> parents) = Ok selected
    ∧ (∀ a, a ∈ selected
            ↔ a ∈ assets ∧ ∃ p, p ∈ parents ∧ Asset.parent_id a = Asset.id p)
    ∧ (parents = [] → selected = []).
Proof.
  eexists. split_and!; [apply find_children_assets| |].
  - intros a. rewrite list_elem_of_filter, list_elem_of_fmap. split.
    + intros [(p & ? & ?) ?]. eauto.
    + intros [? (p & ? & ?)]. eauto.
  - intros ->. apply elem_of_nil_inv. intros a.
    rewrite list_elem_of_filter. simpl. rewrite elem_of_nil. tauto.
Qed.

Lemma id_set_none (parents : list (option Asset)) :
  None ∈ parents → id_set parents = Raise AttributeError.
Proof.
  induction parents as [|[p|] parents IH]; simpl; [by intros ?%elem_of_nil| |done].
  intros [?|Hin]%elem_of_cons; [done|]. by rewrite IH.
Qed.

(** X2. Apart from the sentinel [[None]] itself, a parent list that contains
    [None] makes [find_children] raise [AttributeError]: the set
    comprehension reads [.id] of [None]. *)
Theorem find_children_none_parent (assets : list Asset)
    (parents : list (option Asset)) :
  parents ≠ [None] → None ∈ parents →
  find_children assets parents = Raise AttributeError.
Proof.
  intros Hsentinel Hnone.
  assert (find_children assets parents
          = (parent_ids ← id_set parents;
             Ok (filter (λ asset, Asset.parent_id asset ∈ parent_ids) assets))%result)
    as ->.
  { destruct parents as [|[p|] [|q parents]]; done. }
  by rewrite id_set_none.
Qed.

Lemma find_children_none_parent_witness :
  find_children Mem.tree [Some (Mem.node "r" 1 None); None] = Raise AttributeError.
Proof.
  apply (find_children_none_parent Mem.tree [Some (Mem.node "r" 1 None); None]);
    [discriminate|].
  apply elem_of_cons. right. apply elem_of_cons. by left.
Defined.

(** X3. Whatever [find_children] returns is a sublist of the assets it was
    given: the selected assets keep their order, none is repeated or made
    up. *)
Theorem find_children_sublist (assets : list Asset) (parents : list (option Asset))
    (selected : list Asset) :
  find_children assets parents = Ok selected → sublist selected assets.
Proof.
  assert (find_children assets parents
          = Ok (filter (λ asset, Asset.parent_id asset ∈ [@None Z]) assets)
          ∨ find_children assets parents
            = (parent_ids ← id_set parents;
               Ok (filter (λ asset, Asset.parent_id asset ∈ parent_ids) assets))%result)
    as [-> | ->].
  { destruct parents as [|[p|] [|q parents]]; auto. }
  - intros [= <-]. apply sublist_filter.
  - destruct (id_set parents); simpl; [|done].
    intros [= <-]. apply sublist_filter.
Qed.

Lemma find_children_sublist_witness :
  sublist [Mem.node "c1" 2 (Some 1%Z); Mem.node "c2" 3 (Some 1%Z)] Mem.tree.
Proof.
  apply (find_children_sublist Mem.tree [Some (Mem.node "r" 1 None)]).
  vm_compute. reflexivity.
Defined.

(** ** The deletion sweeps on any client *)

(** Readability of the tag of a concrete asset, by evaluation. *)
Ltac solve_readable :=
  first
    [ exact I
    | right; eexists; split;
      [ reflexivity
      | right; split;
        [ split; [reflexivity | apply Nat.leb_le; reflexivity]
        | by eexists ] ] ].

Lemma sweep_a_completes src_asset_ids (assets : list Asset) acc :
  Forall readable_internal_id assets →
  ∃ l, for_each (replicated_in_src_step src_asset_ids) assets acc = Ok l.
Proof.
  intros HF. revert acc. induction HF as [|a assets Ha _ IH]; intros acc; simpl.
  { eauto. }
  unfold replicated_in_src_step at 1, truthy_dict, subscript.
  unfold readable_internal_id in Ha.
  destruct (Asset.metadata a) as [m|]; simpl; [|apply IH].
  case_bool_decide as Hempty; simpl; [apply IH|].
  destruct Ha as [?|(v & -> & Hv)]; [done|]. simpl.
  destruct Hv as [->|[_ [n Hn]]]; simpl; [apply IH|].
  destruct (truthy_str v); simpl; [|apply IH].
  rewrite Hn. case_bool_decide; apply IH.
Qed.

Lemma not_replicated_step_raise acc a e :
  not_replicated_step acc a = Raise e → e = KeyError.
Proof.
  unfold not_replicated_step, subscript.
  destruct (truthy_dict _); [|done].
  destruct (_ !! _) as [v|]; simpl; [|by intros [= <-]].
  by destruct (truthy_str v).
Qed.

Lemma sweep_b_raise (assets : list Asset) acc e :
  for_each not_replicated_step assets acc = Raise e → e = KeyError.
Proof.
  revert acc. induction assets as [|a assets IH]; intros acc; simpl; [done|].
  destruct (not_replicated_step acc a) as [acc'|e'] eqn:Ha; simpl; [apply IH|].
  intros [= <-]. eapply not_replicated_step_raise, Ha.
Qed.

(** X4. Sweep A on any client, when the [_replicatedInternalId] of every
    listed asset can be read (it is absent with the metadata, empty, or
    plain text that is a decimal literal): the ids handed to
    [assets.delete], and returned, are those of the listed assets whose
    non-empty [_replicatedInternalId] reads as the id of a source asset, in
    listing order; [assets.delete] is called once, on the state left by the
    listing, and its failure is the failure of the sweep. *)
Theorem sweep_a_call {Σ} (src_assets : list Asset) (client : CogniteClient Σ)
    (σ : Σ) (assets : list Asset) (σ1 : Σ) :
  assets_list client σ = (Ok assets, σ1) →
  Forall readable_internal_id assets →
  let ids :=
    Asset.id <$> filter (λ a, tagged_in (list_to_set (Asset.id <$> src_assets)) a
                              = true) assets in
  remove_replicated_if_not_in_src src_assets client σ
  = match assets_delete client ids σ1 with
    | (Ok _, σ2) => (Ok ids, σ2)
    | (Raise e, σ2) => (Raise e, σ2)
    end.
Proof.
  intros Hlist Hread ids. unfold remove_replicated_if_not_in_src, bind, lift, ret.
  rewrite Hlist.
  destruct (sweep_a_completes (list_to_set (Asset.id <$> src_assets)) assets []
              Hread) as [l Hl].
  rewrite Hl. apply sweep_a_selects in Hl as ->. simpl.
  fold ids. by destruct (assets_delete client ids σ1) as [[[]|e] σ2].
Qed.

Lemma sweep_a_call_witness :
  let dst_assets :=
    [Mem.tagged "X" 10 "1"; Mem.tagged "Y" 20 "2"; Mem.node "Z" 30 None] in
  let w := Mem.start [] dst_assets in
  remove_replicated_if_not_in_src [Mem.node "a" 2 None] Mem.client_dst w
  = (Ok [Some 20%Z],
     Mem.Build_world (Mem.source w) (Mem.delete [Some 20%Z] (Mem.destination w))).
Proof.
  intros dst_assets w.
  rewrite (sweep_a_call [Mem.node "a" 2 None] Mem.client_dst w dst_assets w
             eq_refl).
  - reflexivity.
  - unfold dst_assets.
    repeat (apply Forall_cons_2; [solve_readable|]).
    apply Forall_nil_2.
Defined.

(** X5. Sweep B on any client, when no listed asset has a non-empty
    metadata mapping without the [_replicatedSource] key: the ids handed to
    [assets.delete], and returned, are those of the listed assets that have
    no metadata, empty metadata or an empty [_replicatedSource], in listing
    order. *)
Theorem sweep_b_call {Σ} (client : CogniteClient Σ) (σ : Σ) (assets : list Asset)
    (σ1 : Σ) :
  assets_list client σ = (Ok assets, σ1) →
  Forall (λ a, ¬ lacks_key "_replicatedSource" a) assets →
  let ids := Asset.id <$> filter (λ a, replicated a = false) assets in
  remove_not_replicated_in_dst client σ
  = match assets_delete client ids σ1 with
    | (Ok _, σ2) => (Ok ids, σ2)
    | (Raise e, σ2) => (Raise e, σ2)
    end.
Proof.
  intros Hlist Hkeys ids. unfold remove_not_replicated_in_dst, bind, lift, ret.
  rewrite Hlist.
  destruct (sweep_b_completes assets [] Hkeys) as [l Hl].
  rewrite Hl. apply sweep_b_selects in Hl as ->. simpl.
  fold ids. by destruct (assets_delete client ids σ1) as [[[]|e] σ2].
Qed.

Lemma sweep_b_call_witness :
  let dst_assets :=
    [Mem.node "Z" 30 None; Mem.tagged "X" 10 "1"; Mem.node "V" 40 None] in
  let w := Mem.start [] dst_assets in
  remove_not_replicated_in_dst Mem.client_dst w
  = (Ok [Some 30%Z; Some 40%Z],
     Mem.Build_world (Mem.source w)
       (Mem.delete [Some 30%Z; Some 40%Z] (Mem.destination w))).
Proof.
  intros dst_assets w.
  rewrite (sweep_b_call Mem.client_dst w dst_assets w eq_refl).
  - reflexivity.
  - unfold dst_assets.
    repeat (apply Forall_cons_2;
              [intros (m & Hm & Hne & Hkey); simpl in Hm;
               first [discriminate Hm
                     |injection Hm as <-; by vm_compute in Hkey]|]).
    apply Forall_nil_2.
Defined.

(** X6. A sweep deletes all it selected or nothing: as soon as a listed
    asset has a non-empty metadata mapping without the key the sweep reads,
    the sweep raises and leaves the project in the state of the listing, so
    that no [assets.delete] call was made, not even for the assets scanned
    before; Sweep B then raises [KeyError]. *)
Theorem sweeps_all_or_nothing {Σ} (src_assets : list Asset)
    (client : CogniteClient Σ) (σ : Σ) (assets : list Asset) (σ1 : Σ) (a : Asset) :
  assets_list client σ = (Ok assets, σ1) → a ∈ assets →
  (lacks_key "_replicatedInternalId" a →
   ∃ e, remove_replicated_if_not_in_src src_assets client σ = (Raise e, σ1))
  ∧ (lacks_key "_replicatedSource" a →
     remove_not_replicated_in_dst client σ = (Raise KeyError, σ1)).
Proof.
  intros Hlist Hin. split; intros Hkey.
  - destruct (sweep_a_raises (list_to_set (Asset.id <$> src_assets)) assets []
                a Hin Hkey) as [e He].
    exists e. unfold remove_replicated_if_not_in_src, bind, lift.
    by rewrite Hlist, He.
  - destruct (sweep_b_raises assets [] a Hin Hkey) as [e He].
    pose proof (sweep_b_raise _ _ _ He) as ->.
    unfold remove_not_replicated_in_dst, bind, lift. by rewrite Hlist, He.
Qed.

Lemma sweeps_all_or_nothing_witness :
  let W := Asset.mk None (Some "W") None (Some {["unit" := "m"]}) None None
             (Some 30%Z) in
  let w := Mem.start [] [Mem.node "Z" 20 None; W] in
  remove_not_replicated_in_dst Mem.client_dst w = (Raise KeyError, w).
Proof.
  intros W w.
  apply (proj2 (sweeps_all_or_nothing [] Mem.client_dst w
                  [Mem.node "Z" 20 None; W] w W eq_refl
                  ltac:(apply elem_of_cons; right; apply elem_of_cons; by left))).
  exists {["unit" := "m"]}. split_and!; [reflexivity| |by vm_compute].
  intros Hempty.
  apply (f_equal (λ m : gmap string string, m !! "unit")) in Hempty.
  by vm_compute in Hempty.
Defined.

(** X7. Sweep A raises [ValueError], before any deletion, at the first
    listed asset whose non-empty [_replicatedInternalId] is plain text that
    is not a decimal literal, when the assets listed before it can be
    read. *)
Theorem sweep_a_unreadable_id {Σ} (src_assets : list Asset)
    (client : CogniteClient Σ) (σ σ1 : Σ)
    (before after : list Asset) (a : Asset) (m : gmap string string) (v : string) :
  assets_list client σ = (Ok (before ++ a :: after)%list, σ1) →
  Forall readable_internal_id before →
  Asset.metadata a = Some m → m !! "_replicatedInternalId" = Some v →
  v ≠ "" → Py.plain v → Py.int v = None →
  remove_replicated_if_not_in_src src_assets client σ = (Raise ValueError, σ1).
Proof.
  intros Hlist Hbefore Hm Hv Hne _ Hint.
  unfold remove_replicated_if_not_in_src, bind, lift. rewrite Hlist.
  rewrite for_each_app.
  destruct (sweep_a_completes (list_to_set (Asset.id <$> src_assets)) before []
              Hbefore) as [l ->].
  simpl. unfold replicated_in_src_step at 1, truthy_dict, subscript.
  rewrite Hm. simpl. rewrite bool_decide_eq_false_2.
  2:{ intros ->. by rewrite lookup_empty in Hv. }
  simpl. rewrite Hv. simpl. destruct v; [done|]. simpl. by rewrite Hint.
Qed.

Lemma sweep_a_unreadable_id_witness :
  let w := Mem.start [] [Mem.tagged "X" 10 "1"; Mem.tagged "Y" 20 "pump-7"] in
  remove_replicated_if_not_in_src [Mem.node "a" 1 None] Mem.client_dst w
  = (Raise ValueError, w).
Proof.
  intros w.
  apply (sweep_a_unreadable_id [Mem.node "a" 1 None] Mem.client_dst w w
           [Mem.tagged "X" 10 "1"] [] (Mem.tagged "Y" 20 "pump-7")
           (<["_replicatedInternalId" := "pump-7"]> {["_replicatedSource" := "src"]})
           "pump-7");
    [reflexivity| |reflexivity|reflexivity|discriminate
    |split; [reflexivity|apply Nat.leb_le; reflexivity]|reflexivity].
  apply Forall_cons_2; [solve_readable|apply Forall_nil_2].
Defined.

(** ** The depth loop on any source listing *)

Lemma while_children_nil {Σ} (tries : nat) (src_assets dst_assets : list Asset)
    (project_src : string) (runtime : Z) (client : CogniteClient Σ)
    (fuel : nat) (st : WalkState) (σ : Σ) :
  children st = [] →
  while_children tries src_assets dst_assets project_src runtime client fuel st σ
  = Some (Ok (src_dst_ids st), σ).
Proof. intros Hnil. destruct fuel; simpl; by rewrite Hnil. Qed.

(** X8. A source without a root is not replicated at all: when every source
    asset has a [parent_id], [create_hierarchy] returns the empty Id Mapping
    at once, without a call on the destination. *)
Theorem no_root_nothing_replicated {Σ} (tries : nat)
    (src_assets dst_assets : list Asset) (project_src : string) (runtime : Z)
    (client : CogniteClient Σ) (fuel : nat) (σ : Σ) :
  (∀ a, a ∈ src_assets → Asset.parent_id a ≠ None) →
  create_hierarchy tries src_assets dst_assets project_src runtime client fuel σ
  = Some (Ok ∅, σ).
Proof.
  intros Hparents. rewrite create_hierarchy_loop.
  assert (level src_assets 0 = []) as Hnil.
  { apply elem_of_nil_inv. intros a [Ha Hnone]%elem_of_level_0.
    by apply (Hparents a). }
  by rewrite while_children_nil.
Qed.

Lemma no_root_nothing_replicated_witness :
  let src_assets := [Mem.node "x" 8 (Some 9%Z); Mem.node "y" 9 (Some 8%Z)] in
  create_hierarchy 0 src_assets [] "src" 5000 Mem.client_dst 0
    (Mem.start src_assets [])
  = Some (Ok ∅, Mem.start src_assets []).
Proof.
  intros src_assets.
  apply (no_root_nothing_replicated 0 src_assets [] "src" 5000 Mem.client_dst 0
           (Mem.start src_assets [])).
  intros a Ha. unfold src_assets in Ha.
  apply elem_of_cons in Ha as [->|Ha%list_elem_of_singleton]; by subst.
Defined.

(** X9. Which assets an iteration processes is decided by the source
    listing alone: whenever the loop condition is evaluated, [depth] is the
    number of iterations made and [children] is the level of that depth,
    whatever the destination holds and the write calls answered.  A run
    that returns made one iteration for each of the non-empty levels that
    come first, on the assets of that level, and returned the Id Mapping of
    the state it reached at the first empty level. *)
Theorem selection_by_source_only {Σ} (tries : nat)
    (src_assets dst_assets : list Asset) (project_src : string) (runtime : Z)
    (client : CogniteClient Σ) (σ0 : Σ) :
  (∀ x, visited tries src_assets dst_assets project_src runtime client σ0 x →
        ∃ k, depth x.1 = Z.of_nat k ∧ children x.1 = level src_assets k)
  ∧ (∀ fuel m σ',
       create_hierarchy tries src_assets dst_assets project_src runtime client
         fuel σ0 = Some (Ok m, σ') →
       ∃ n st,
         visited tries src_assets dst_assets project_src runtime client σ0
           (st, σ')
         ∧ depth st = Z.of_nat n ∧ children st = [] ∧ src_dst_ids st = m
         ∧ level src_assets n = []
         ∧ ∀ k, (k < n)%nat →
                level src_assets k ≠ []
                ∧ ∃ x y,
                    visited tries src_assets dst_assets project_src runtime
                      client σ0 x
                    ∧ depth x.1 = Z.of_nat k
                    ∧ children x.1 = level src_assets k
                    ∧ walk_step tries src_assets dst_assets project_src
                        runtime client x y).
Proof.
  split.
  - intros x Hx. destruct (visited_at_level _ _ _ _ _ _ _ _ Hx) as [k Hk].
    by exists k.
  - intros fuel m σ' Hrun. rewrite create_hierarchy_loop in Hrun.
    apply while_children_returns_inv in Hrun as (st & Hrtc & Hnone & Hm).
    destruct (visited_at_level _ _ _ _ _ _ _ _ Hrtc) as [n Hn].
    exists n, st. split_and!; [done|by destruct Hn|done|done| |].
    { destruct Hn as [_ <-]. done. }
    intros k Hk.
    destruct (visited_levels _ _ _ _ _ _ _ _ _ _ Hrtc Hn Hk)
      as (x & y & Hx & [Hxd Hxk] & Hstep).
    split; [rewrite <- Hxk; by destruct Hstep|].
    by exists x, y.
Qed.

Lemma selection_by_source_only_witness :
  ∃ m σ' st,
    create_hierarchy 0 Mem.tree [] "src" 5000 Mem.client_dst 10
      (Mem.start Mem.tree []) = Some (Ok m, σ')
    ∧ visited 0 Mem.tree [] "src" 5000 Mem.client_dst (Mem.start Mem.tree [])
        (st, σ')
    ∧ depth st = 3%Z ∧ children st = [] ∧ src_dst_ids st = m.
Proof.
  assert (∃ m σ', create_hierarchy 0 Mem.tree [] "src" 5000 Mem.client_dst 10
                    (Mem.start Mem.tree []) = Some (Ok m, σ'))
    as (m & σ' & Hrun).
  { eexists _, _. vm_compute. reflexivity. }
  destruct (proj2 (selection_by_source_only 0 Mem.tree [] "src" 5000
                     Mem.client_dst (Mem.start Mem.tree [])) 10%nat m σ' Hrun)
    as (n & st & Hvisited & Hdepth & Hnone & Hm & Hnil & Hbefore).
  exists m, σ', st. split_and!; [done..| |done|done].
  assert (n = 3)%nat as ->; [|done].
  destruct (decide (n < 3)%nat) as [Hlt|Hge].
  - destruct n as [|[|[|n]]]; [by vm_compute in Hnil..|lia].
  - destruct (decide (n = 3)%nat) as [|Hne]; [done|].
    destruct (Hbefore 3%nat) as [Hthird _]; [lia|].
    by vm_compute in Hthird.
Defined.

(** X10. In a source listing with unique ids no asset is processed twice:
    an asset selected in two evaluations of the loop condition is selected
    at one and the same depth. *)
Theorem selected_at_one_depth {Σ} (tries : nat)
    (src_assets dst_assets : list Asset) (project_src : string) (runtime : Z)
    (client : CogniteClient Σ) (σ0 : Σ) (x y : WalkState * Σ) (a : Asset) :
  listed src_assets → unique_ids src_assets →
  visited tries src_assets dst_assets project_src runtime client σ0 x →
  visited tries src_assets dst_assets project_src runtime client σ0 y →
  a ∈ children x.1 → a ∈ children y.1 →
  depth x.1 = depth y.1.
Proof.
  intros Hlisted Huniq Hx Hy Hax Hay.
  destruct (visited_at_level _ _ _ _ _ _ _ _ Hx) as [k [Hdk Hk]].
  destruct (visited_at_level _ _ _ _ _ _ _ _ Hy) as [k' [Hdk' Hk']].
  rewrite Hk in Hax. rewrite Hk' in Hay.
  rewrite Hdk, Hdk'. f_equal. eapply level_disjoint; eauto.
Qed.

(** X11. On a source listing with unique ids the depth loop always ends,
    parent cycles included: the children set is empty after at most as many
    iterations as there are source assets, and on a store that answers
    every write [create_hierarchy] returns an Id Mapping. *)
Theorem walk_terminates_on_listing {Σ} (tries : nat)
    (src_assets dst_assets : list Asset) (project_src : string) (runtime : Z)
    (client : CogniteClient Σ) (fuel : nat) (σ : Σ) :
  listed src_assets → unique_ids src_assets →
  (length src_assets ≤ fuel)%nat →
  level src_assets (length src_assets) = []
  ∧ is_Some (create_hierarchy tries src_assets dst_assets project_src runtime
               client fuel σ)
  ∧ (listed dst_assets →
     faithful (assets_create client) → faithful (assets_update client) →
     reliable client →
     ∃ m σ', create_hierarchy tries src_assets dst_assets project_src runtime
               client fuel σ = Some (Ok m, σ')).
Proof.
  intros Hlisted Huniq Hfuel.
  pose proof (level_length_nil _ Hlisted Huniq) as Hnil.
  assert (level src_assets (0 + fuel) = []) as Hnil'.
  { eapply level_nil_le; [exact Hnil|]. simpl. lia. }
  split_and!; [done| |].
  - rewrite create_hierarchy_loop.
    eapply (while_children_fuel _ _ _ _ _ _ _ _ _ 0); [done|exact Hnil'].
  - intros Hdst Hc Hu Hrel. rewrite create_hierarchy_loop.
    eapply (while_children_returns tries src_assets dst_assets project_src
              runtime client Hlisted Hdst Hc Hu Hrel fuel (init src_assets) σ 0);
      [done| |exact Hnil'].
    intros Hd. simpl in Hd. lia.
Qed.

Lemma selected_at_one_depth_witness :
  Mem.node "r" 1 None ∈ children (init Mem.tree_with_strays)
  ∧ depth (init Mem.tree_with_strays, Mem.start Mem.tree_with_strays []).1
    = depth (init Mem.tree_with_strays, Mem.start Mem.tree_with_strays []).1.
Proof.
  assert (Mem.node "r" 1 None ∈ children (init Mem.tree_with_strays)) as Ha.
  { apply elem_of_cons. by left. }
  split; [exact Ha|].
  apply (selected_at_one_depth 0 Mem.tree_with_strays [] "src" 5000
           Mem.client_dst (Mem.start Mem.tree_with_strays [])
           (init Mem.tree_with_strays, Mem.start Mem.tree_with_strays [])
           (init Mem.tree_with_strays, Mem.start Mem.tree_with_strays [])
           (Mem.node "r" 1 None)
           tree_with_strays_listed tree_with_strays_unique
           (rtc_refl _ _) (rtc_refl _ _) Ha Ha).
Defined.

Lemma walk_terminates_on_listing_witness :
  level Mem.tree_with_strays 9 = []
  ∧ is_Some (create_hierarchy 0 Mem.tree_with_strays [] "src" 5000 Mem.client_dst 9
               (Mem.start Mem.tree_with_strays [])).
Proof.
  refine (let H := walk_terminates_on_listing 0 Mem.tree_with_strays [] "src" 5000
                     Mem.client_dst 9 (Mem.start Mem.tree_with_strays [])
                     tree_with_strays_listed tree_with_strays_unique _
          in conj (proj1 H) (proj1 (proj2 H))).
  simpl. lia.
Defined.

(** ** The driver and the update payload *)

Lemma while_children_with_delete {Σ} (tries : nat)
    (src_assets dst_assets : list Asset) (project_src : string) (runtime : Z)
    (client : CogniteClient Σ) (delete : list (option Z) → M Σ unit)
    (fuel : nat) (st : WalkState) (σ : Σ) :
  while_children tries src_assets dst_assets project_src runtime
    (with_delete delete client) fuel st σ
  = while_children tries src_assets dst_assets project_src runtime client fuel st σ.
Proof.
  revert st σ. induction fuel as [|fuel IH]; intros st σ; simpl; [done|].
  destruct (children st); [done|]. unfold fbind, run.
  change (loop_body tries src_assets dst_assets project_src runtime
            (with_delete delete client) st σ)
    with (loop_body tries src_assets dst_assets project_src runtime client st σ).
  destruct (loop_body _ _ _ _ _ _ _ _) as [[st'|e] σ']; [apply IH|done].
Qed.

(** X12. With both flags off [replicate] never calls [assets.delete], on
    either project: the run is the same whatever the delete calls of the two
    clients would do. *)
Theorem replicate_default_never_deletes {Σ} (tries : nat)
    (client_src client_dst : CogniteClient Σ)
    (delete_src delete_dst : list (option Z) → M Σ unit)
    (time_time : Z) (fuel : nat) (σ : Σ) :
  replicate tries (with_delete delete_src client_src)
    (with_delete delete_dst client_dst) false false time_time fuel σ
  = replicate tries client_src client_dst false false time_time fuel σ.
Proof.
  unfold replicate, fbind, run. simpl.
  destruct (assets_list client_src σ) as [[assets_src|e] σ1]; [|done].
  destruct (assets_list client_dst σ1) as [[assets_dst|e] σ2]; [|done].
  unfold create_hierarchy, fbind, run. simpl.
  by rewrite while_children_with_delete.
Qed.

(** X13. [build_asset_update] does not read the Id Mapping or the depth,
    and an update overrides an earlier one: updating an updated destination
    asset gives what updating the original gives, so that only the parent
    reference and the id of the destination asset survive. *)
Theorem build_asset_update_absorbs (src1 src2 dst_asset : Asset)
    (ids1 ids2 : gmap Z Z) (project1 project2 : string)
    (runtime1 runtime2 depth1 depth2 : Z) :
  build_asset_update src2 dst_asset ids1 project2 runtime2 depth1
  = build_asset_update src2 dst_asset ids2 project2 runtime2 depth2
  ∧ build_asset_update src2
      (build_asset_update src1 dst_asset ids1 project1 runtime1 depth1)
      ids2 project2 runtime2 depth2
    = build_asset_update src2 dst_asset ids2 project2 runtime2 depth2.
Proof. done. Qed.

(** X14. No sweep follows a failed walk: when [create_hierarchy] raises on
    the two listings, [replicate] raises the same exception in the state the
    walk left, whatever the two deletion flags are. *)
Theorem replicate_failed_walk_skips_sweeps {Σ} (tries : nat)
    (client_src client_dst : CogniteClient Σ)
    (delete_replicated_if_not_in_src delete_not_replicated_in_dst : bool)
    (time_time : Z) (fuel : nat) (σ σ1 σ2 σ3 : Σ)
    (assets_src assets_dst : list Asset) (e : exn) :
  assets_list client_src σ = (Ok assets_src, σ1) →
  assets_list client_dst σ1 = (Ok assets_dst, σ2) →
  create_hierarchy tries assets_src assets_dst (config_project client_src)
    (time_time * 1000) client_dst fuel σ2 = Some (Raise e, σ3) →
  replicate tries client_src client_dst delete_replicated_if_not_in_src
    delete_not_replicated_in_dst time_time fuel σ
  = Some (Raise e, σ3).
Proof.
  intros Hsrc Hdst Hwalk. unfold replicate, fbind at 1 2 3, run at 1 2.
  by rewrite Hsrc, Hdst, Hwalk.
Qed.

Lemma replicate_failed_walk_skips_sweeps_witness :
  let failing : CogniteClient Mem.world :=
    {| config_project := "dst";
       assets_list := assets_list Mem.client_dst;
       assets_create := λ _ w, (Raise CogniteAPIError, w);
       assets_update := assets_update Mem.client_dst;
       assets_delete := assets_delete Mem.client_dst |} in
  let w := Mem.start Mem.tree [Mem.node "Z" 30 None] in
  replicate 0 Mem.client_src failing true true 5 10 w
  = Some (Raise CogniteAPIError, w).
Proof.
  intros failing w.
  apply (replicate_failed_walk_skips_sweeps 0 Mem.client_src failing true true
           5 10 w w w w Mem.tree [Mem.node "Z" 30 None] CogniteAPIError);
    reflexivity.
Defined.

(** X15. [build_asset_create] reads the Id Mapping at the parent's id only
    and the depth only through the test [depth > 0]: mappings that agree on
    the parent and depths on the same side of the test give the same
    payload or the same exception. *)
Theorem build_asset_create_reads_parent_only (src_asset : Asset)
    (ids ids' : gmap Z Z) (project_src : string) (runtime depth depth' : Z) :
  (∀ p, Asset.parent_id src_asset = Some p → ids !! p = ids' !! p) →
  ((depth > 0)%Z ↔ (depth' > 0)%Z) →
  build_asset_create src_asset ids project_src runtime depth
  = build_asset_create src_asset ids' project_src runtime depth'.
Proof.
  intros Hids Hdepth. unfold build_asset_create, subscript.
  rewrite (bool_decide_ext _ _ Hdepth).
  destruct (Asset.parent_id src_asset) as [p|]; [|done].
  by rewrite (Hids p eq_refl).
Qed.

Lemma build_asset_create_reads_parent_only_witness :
  build_asset_create (Mem.node "pump" 7 (Some 3%Z))
    {[3%Z := 1003%Z; 4%Z := 1004%Z]} "src" 5000 1
  = build_asset_create (Mem.node "pump" 7 (Some 3%Z))
      {[3%Z := 1003%Z]} "src" 5000 4.
Proof.
  apply (build_asset_create_reads_parent_only (Mem.node "pump" 7 (Some 3%Z))
           {[3%Z := 1003%Z; 4%Z := 1004%Z]} {[3%Z := 1003%Z]} "src" 5000 1 4).
  - intros p [= <-]. reflexivity.
  - lia.
Defined.
